(** * Bookings report for a transportation operator

    A shallow embedding of [solution.py]: the relational data model
    (service, legs, origin-destination pairs, passengers) and the two
    report computations of an OD, [history] and [forecast].

    Conventions of the embedding.
    - Python integers are [Z].  A passenger's price is declared [float]
      and the script passes [int]s: the price is of any type [R] with a
      zero and an addition ([Num]), instantiated by [Z] for [int] and by
      the binary64 numbers for [float].  [forecast] adds an [int] amount
      to the running money ([Money]).
    - A [dict] is an association list in insertion order whose keys are
      pairwise distinct; assignment to a present key replaces the value in
      place, assignment to an absent key appends an entry.
    - Code that mutates an object or may raise runs in the monad [Py]: a
      state transformer that returns the state also when an exception is
      raised, since a Python exception does not undo earlier mutations.
    - [Station] and [Leg] define neither [__eq__] nor [__hash__]: they are
      compared by object identity.
    - A row of the demand matrix is a dictionary object: one of its own,
      or the very object passed as [pricing], which [forecast] mutates
      while it reads the row. *)

From Stdlib Require Import String.
From Stdlib Require Import List ZArith Arith Bool Lia.
From Stdlib Require Import Sorting.Permutation Sorting.Sorted.
From Stdlib Require Import Floats.
Import ListNotations.

Set Implicit Arguments.


(** ** Equality as used by [==], dictionary keys and [in] *)

Class PyEq (K : Type) := py_eqb : K -> K -> bool.

#[export] Instance PyEq_nat : PyEq nat := Nat.eqb.

#[export] Instance PyEq_Z : PyEq Z := Z.eqb.

(** tuples compare component by component *)
#[export] Instance PyEq_pair {A B} `{PyEq A} `{PyEq B} : PyEq (A * B) :=
  fun x y => (py_eqb (fst x) (fst y) && py_eqb (snd x) (snd y))%bool.

(** ** Dictionaries *)

Section Dict.
Context {K V : Type} `{PyEq K}.

Definition dict := list (K * V).

(** [d[k]], [None] standing for the [KeyError] *)
Fixpoint dict_get (d : dict) (k : K) : option V :=
  match d with
  | [] => None
  | (k', v) :: rest => if py_eqb k' k then Some v else dict_get rest k
  end.

(** [d[k] = v] *)
Fixpoint dict_set (d : dict) (k : K) (v : V) : dict :=
  match d with
  | [] => [(k, v)]
  | (k', v') :: rest =>
      if py_eqb k' k then (k', v) :: rest else (k', v') :: dict_set rest k v
  end.

Definition dict_keys (d : dict) : list K := map fst d.
Definition dict_values (d : dict) : list V := map snd d.

Definition has_key (d : dict) (k : K) : bool :=
  match dict_get d k with Some _ => true | None => false end.
End Dict.

Arguments dict : clear implicits.

(** ** Mutation and exceptions *)

Inductive exn := KeyError | UnboundLocalError.

Inductive outcome (A : Type) :=
| Ok (a : A)
| Raise (e : exn).
Arguments Ok {A} a.
Arguments Raise {A} e.

Definition Py (S A : Type) := S -> S * outcome A.

Definition ret {S A} (a : A) : Py S A := fun s => (s, Ok a).

Definition raise {S A} (e : exn) : Py S A := fun s => (s, Raise e).

Definition bind {S A B} (m : Py S A) (f : A -> Py S B) : Py S B :=
  fun s =>
    match m s with
    | (s', Ok a) => f a s'
    | (s', Raise e) => (s', Raise e)
    end.

Definition gets {S A} (f : S -> A) : Py S A := fun s => (s, Ok (f s)).

Definition modify {S} (f : S -> S) : Py S unit := fun s => (f s, Ok tt).

(** a lookup that raises [KeyError] on an absent key *)
Definition subscript {S V} (o : option V) : Py S V :=
  match o with
  | Some v => ret v
  | None => raise KeyError
  end.

Declare Scope py_scope.
Delimit Scope py_scope with py.
Notation "x <- m ;; k" := (bind m (fun x => k))
  (at level 61, m at next level, right associativity) : py_scope.
Notation "m ;; k" := (bind m (fun _ => k))
  (at level 61, right associativity) : py_scope.
Open Scope py_scope.
(** ** Numbers *)

(** What [_history] and [sum] need of a price: [0] and [+]. *)
Class Num (R : Type) := {
  num_zero : R;
  num_add : R -> R -> R
}.

(** What [forecast] needs of the running money: adding an [int]. *)
Class Money (R : Type) := num_add_int : R -> Z -> R.

#[export] Instance Num_Z : Num Z := {| num_zero := 0%Z; num_add := Z.add |}.

#[export] Instance Money_Z : Money Z := Z.add.

(** Python's [float]: binary64 with round-to-nearest addition; the [int]
    [0] that starts a sum is converted to [0.0] by the first addition. *)
#[export] Instance Num_float : Num float :=
  {| num_zero := 0%float; num_add := PrimFloat.add |}.

(** ** Data model *)

(** A station is the identity of a [Station] object. *)
Definition Station := nat.

Module Passenger.
Record t (R : Type) := make {
  origin : Station;
  destination : Station;
  sale_day_x : Z;
  price : R
}.
Arguments make {R} origin destination sale_day_x price.
Arguments origin {R} t.
Arguments destination {R} t.
Arguments sale_day_x {R} t.
Arguments price {R} t.
End Passenger.

Module Leg.
(** [id] is the identity of the [Leg] object; the reference to the owning
    service is passed to the methods explicitly. *)
Record t := make {
  id : nat;
  origin : Station;
  destination : Station
}.
End Leg.

Module OD.
Record t (R : Type) := make {
  origin : Station;
  destination : Station;
  passengers : list (Passenger.t R)
}.
Arguments make {R} origin destination passengers.
Arguments origin {R} t.
Arguments destination {R} t.
Arguments passengers {R} t.
End OD.

Module Service.
Record t (R : Type) := make {
  name : string;
  departure_date : Z;
  legs : list Leg.t;
  ods : dict (Station * Station) (OD.t R)
}.
Arguments make {R} name departure_date legs ods.
Arguments name {R} t.
Arguments departure_date {R} t.
Arguments legs {R} t.
Arguments ods {R} t.
End Service.

(** a report line [(day_x, total_seats_sold, total_money_made)] *)
Definition triplet (R : Type) := (Z * Z * R)%type.

(** A row of the demand matrix: a dictionary of its own, or the object
    that is also the [pricing] argument of [forecast]. *)
Inductive row :=
| Own (demand : dict Z Z)
| ThePricing.

(** The objects [forecast] can reach: the OD itself and its two arguments. *)
Module Heap.
Record t (R : Type) := make {
  self : OD.t R;
  pricing : dict Z Z;
  demand_matrix : dict Z row
}.
Arguments make {R} self pricing demand_matrix.
Arguments self {R} t.
Arguments pricing {R} t.
Arguments demand_matrix {R} t.
End Heap.

Section Model.
Context {R : Type}.

(** [Service(name, departure_date)] *)
Definition Service_init (name : string) (departure_date : Z) : Service.t R :=
  Service.make name departure_date [] [].

(** ** [Service.load_itinerary] *)

Definition enumerate {A} (l : list A) : list (nat * A) :=
  combine (seq 0 (length l)) l.

Definition islice {A} (l : list A) (stop : nat) : list A := firstn stop l.

(** [self.ods[key] = od] *)
Definition ods_setitem (key : Station * Station) (od : OD.t R)
    : Py (Service.t R) unit :=
  modify (fun s =>
    Service.make (Service.name s) (Service.departure_date s) (Service.legs s)
                 (dict_set (Service.ods s) key od)).

(** an identity that no leg of [legs] has: one more than the greatest *)
Definition fresh_leg_id (legs : list Leg.t) : nat :=
  fold_right (fun leg m => Nat.max (S (Leg.id leg)) m) 0 legs.

(** [self.legs.append(Leg(self, origin, destination))]; the new object is
    distinct from every leg of the service. *)
Definition legs_append_new (origin destination : Station)
    : Py (Service.t R) unit :=
  modify (fun s =>
    Service.make (Service.name s) (Service.departure_date s)
                 (Service.legs s ++
                    [Leg.make (fresh_leg_id (Service.legs s)) origin destination])
                 (Service.ods s)).

(** [for prev in islice(itinerary, i): self.ods[(prev, station)] = OD(...)];
    the loop variable [prev] stays bound to the last item after the loop. *)
Fixpoint load_itinerary_prevs (prevs : list Station) (station : Station)
    (prev : option Station) : Py (Service.t R) (option Station) :=
  match prevs with
  | [] => ret prev
  | p :: rest =>
      ods_setitem (p, station) (OD.make p station []) ;;
      load_itinerary_prevs rest station (Some p)
  end.

(** the body of [for i, station in enumerate(itinerary)] *)
Fixpoint load_itinerary_loop (items : list (nat * Station))
    (itinerary : list Station) (prev : option Station) : Py (Service.t R) unit :=
  match items with
  | [] => ret tt
  | (i, station) :: rest =>
      if Nat.eqb i 0 then load_itinerary_loop rest itinerary prev
      else
        prev' <- load_itinerary_prevs (islice itinerary i) station prev ;;
        match prev' with
        | None => raise UnboundLocalError
        | Some p =>
            legs_append_new p station ;;
            load_itinerary_loop rest itinerary prev'
        end
  end.

Definition load_itinerary (itinerary : list Station) : Py (Service.t R) unit :=
  load_itinerary_loop (enumerate itinerary) itinerary None.

(** ** [Service.load_passenger_manifest] *)

(** [od.passengers.append(passenger)] for the OD stored under [key] *)
Definition od_passengers_append (key : Station * Station) (od : (OD.t R))
    (p : (Passenger.t R)) : Py (Service.t R) unit :=
  ods_setitem key (OD.make (OD.origin od) (OD.destination od)
                           (OD.passengers od ++ [p])).

Fixpoint load_passenger_manifest (passengers : list (Passenger.t R))
    : Py (Service.t R) unit :=
  match passengers with
  | [] => ret tt
  | passenger :: rest =>
      let key := (Passenger.origin passenger, Passenger.destination passenger) in
      od <- (fun s => subscript (dict_get (Service.ods s) key) s) ;;
      od_passengers_append key od passenger ;;
      load_passenger_manifest rest
  end.

(** ** [OD._legs] and [OD.legs] *)

(** First loop of [_legs]: advance the shared iterator up to and including
    the first leg whose origin is the OD's origin; returns what is yielded
    and what remains in the iterator. *)
Fixpoint _legs_first (o : Station) (it : list Leg.t) : list Leg.t * list Leg.t :=
  match it with
  | [] => ([], [])
  | leg :: it' =>
      if py_eqb (Leg.origin leg) o then ([leg], it') else _legs_first o it'
  end.

(** Second loop of [_legs], on the rest of the same iterator. *)
Fixpoint _legs_second (d : Station) (it : list Leg.t) : list Leg.t :=
  match it with
  | [] => []
  | leg :: it' =>
      if py_eqb (Leg.origin leg) d then [] else leg :: _legs_second d it'
  end.

Definition _legs (service : (Service.t R)) (self : (OD.t R)) : list Leg.t :=
  let (yielded, it) := _legs_first (OD.origin self) (Service.legs service) in
  yielded ++ _legs_second (OD.destination self) it.

(** the property [OD.legs]: [list(self._legs())] *)
Definition OD_legs (service : (Service.t R)) (self : (OD.t R)) : list Leg.t :=
  _legs service self.

(** ** [Leg.passengers] *)

(** [leg in legs], on objects compared by identity *)
Definition leg_in (leg : Leg.t) (legs : list Leg.t) : bool :=
  existsb (fun l => py_eqb (Leg.id l) (Leg.id leg)) legs.

Fixpoint Leg_passengers_loop (service : (Service.t R)) (self : Leg.t)
    (values : list (OD.t R)) (passengers : list (Passenger.t R)) : list (Passenger.t R) :=
  match values with
  | [] => passengers
  | od :: rest =>
      if negb (leg_in self (OD_legs service od))
      then Leg_passengers_loop service self rest passengers
      else Leg_passengers_loop service self rest (passengers ++ OD.passengers od)
  end.

Definition Leg_passengers (service : (Service.t R)) (self : Leg.t) : list (Passenger.t R) :=
  Leg_passengers_loop service self (dict_values (Service.ods service)) [].


(** ** [OD.history] *)

Definition t_day (t : triplet R) : Z := fst (fst t).
Definition t_count (t : triplet R) : Z := snd (fst t).
Definition t_revenue (t : triplet R) : R := snd t.

Section SortGroup.
Context {A : Type} (key : A -> Z).

Fixpoint insert_sorted (x : A) (l : list A) : list A :=
  match l with
  | [] => [x]
  | y :: l' =>
      if (key x <=? key y)%Z then x :: y :: l' else y :: insert_sorted x l'
  end.

(** [sorted(l, key=key)]: the stable sort by ascending key *)
Fixpoint sorted (l : list A) : list A :=
  match l with
  | [] => []
  | x :: l' => insert_sorted x (sorted l')
  end.

(** [itertools.groupby(l, key)]: maximal runs of consecutive items with
    equal keys, each with its key *)
Fixpoint groupby (l : list A) : list (Z * list A) :=
  match l with
  | [] => []
  | x :: l' =>
      match groupby l' with
      | (k, g) :: groups =>
          if (key x =? k)%Z then (k, x :: g) :: groups
          else (key x, [x]) :: (k, g) :: groups
      | [] => [(key x, [x])]
      end
  end.
End SortGroup.

Context {numR : Num R}.

(** [for passenger in passengers: head_count += 1; wallet += passenger.price] *)
Fixpoint _history_group (passengers : list (Passenger.t R)) (head_count : Z)
    (wallet : R) : Z * R :=
  match passengers with
  | [] => (head_count, wallet)
  | passenger :: rest =>
      _history_group rest (head_count + 1)%Z
                     (num_add wallet (Passenger.price passenger))
  end.

Fixpoint _history_loop (groups : list (Z * list (Passenger.t R)))
    (head_count : Z) (wallet : R) : list (triplet R) :=
  match groups with
  | [] => []
  | (day_x, passengers) :: rest =>
      let (head_count', wallet') := _history_group passengers head_count wallet in
      (day_x, head_count', wallet') :: _history_loop rest head_count' wallet'
  end.

Definition _history (self : OD.t R) : list (triplet R) :=
  let passengers := sorted Passenger.sale_day_x (OD.passengers self) in
  _history_loop (groupby Passenger.sale_day_x passengers) 0%Z num_zero.

Definition history (self : OD.t R) : list (triplet R) := _history self.

(** ** [OD.forecast] *)

(** [for k, v in d.items(): body], for a dictionary [d] that lives in the
    state: the iterator walks the entries by position and reads each entry
    when it reaches it, so that the body sees values assigned meanwhile.
    The loop-carried local variables are [acc]. *)
Section ForItems.
Context {St K V A : Type}.
Variable view : St -> dict K V.
Variable body : K -> V -> A -> Py St A.

Fixpoint for_items_from (n pos : nat) (acc : A) : Py St A :=
  match n with
  | O => ret acc
  | S n' => fun s =>
      match nth_error (view s) pos with
      | None => (s, Ok acc)
      | Some (k, v) =>
          (acc' <- body k v acc ;; for_items_from n' (S pos) acc') s
      end
  end.

Definition for_items (acc : A) : Py St A :=
  fun s => for_items_from (length (view s)) 0 acc s.
End ForItems.

Context {moneyR : Money R}.

(** [sum(passenger.price for passenger in passengers)], which adds from
    the left starting at [0] *)
Definition sum_prices (passengers : list (Passenger.t R)) : R :=
  fold_left (fun acc p => num_add acc (Passenger.price p)) passengers num_zero.

(** [pricing[price] = v] *)
Definition pricing_setitem (price v : Z) : Py (Heap.t R) unit :=
  modify (fun h =>
    Heap.make (Heap.self h) (dict_set (Heap.pricing h) price v)
              (Heap.demand_matrix h)).

(** [pricing[price]] *)
Definition pricing_getitem (price : Z) : Py (Heap.t R) Z :=
  fun h => subscript (dict_get (Heap.pricing h) price) h.

(** the entry of a row at [price], given the current pricing *)
Definition row_get (pricing : dict Z Z) (demand : row) (price : Z) : option Z :=
  match demand with
  | Own d => dict_get d price
  | ThePricing => dict_get pricing price
  end.

(** [demand[price]], read when the statement runs *)
Definition demand_getitem (demand : row) (price : Z) : Py (Heap.t R) Z :=
  fun h => subscript (row_get (Heap.pricing h) demand price) h.

(** body of [for price, count in pricing.items()]; the locals carried
    around the loop are [(sold, money)] *)
Definition forecast_price (demand : row) (price count : Z)
    (acc : Z * R) : Py (Heap.t R) (Z * R) :=
  let '(sold, money) := acc in
  d <- demand_getitem demand price ;;
  let _sold := Z.min (d - sold) count in
  if (_sold <=? 0)%Z then ret (sold, money)
  else
    cur <- pricing_getitem price ;;
    pricing_setitem price (cur - _sold)%Z ;;
    ret ((sold + _sold)%Z, num_add_int money (price * _sold)%Z).

(** body of [for day, demand in demand_matrix.items()]; the locals carried
    around the loop are [(head_count, money)] and the triplets yielded so
    far *)
Definition forecast_day (day : Z) (demand : row)
    (acc : Z * R * list (triplet R)) : Py (Heap.t R) (Z * R * list (triplet R)) :=
  let '(head_count, money, yielded) := acc in
  r <- for_items Heap.pricing (forecast_price demand) (0%Z, money) ;;
  let '(sold, money') := r in
  let head_count' := (head_count + sold)%Z in
  ret (head_count', money', yielded ++ [(day, head_count', money')]).

(** [list(self.forecast(pricing, demand_matrix))]: the generator consumed
    to its end.  When a demand lacks a price the [KeyError] ends the run,
    with the pricing as decremented so far. *)
Definition forecast : Py (Heap.t R) (list (triplet R)) :=
  passengers <- gets (fun h => OD.passengers (Heap.self h)) ;;
  let money := sum_prices passengers in
  let head_count := Z.of_nat (length passengers) in
  r <- for_items Heap.demand_matrix forecast_day (head_count, money, []) ;;
  ret (snd r).

(** ** Reference computations, written after the specification *)

(** position of the first leg whose origin is [st] *)
Fixpoint first_origin_index (st : Station) (legs : list Leg.t) : option nat :=
  match legs with
  | [] => None
  | leg :: rest =>
      if Nat.eqb (Leg.origin leg) st then Some 0
      else option_map S (first_origin_index st rest)
  end.

(** The legs of an OD as a slice of the service's legs: from the first leg
    that leaves the OD's origin, up to but without the first later leg
    that leaves the OD's destination, or to the end when there is none. *)
Definition OD_legs_spec (service : (Service.t R)) (od : (OD.t R)) : list Leg.t :=
  let legs := Service.legs service in
  match first_origin_index (OD.origin od) legs with
  | None => []
  | Some i =>
      match first_origin_index (OD.destination od) (skipn (S i) legs) with
      | None => skipn i legs
      | Some n => firstn (S n) (skipn i legs)
      end
  end.

(** the ODs of a service whose legs contain [leg], in iteration order *)
Definition ods_crossing (service : (Service.t R)) (leg : Leg.t) : list (OD.t R) :=
  filter (fun od => leg_in leg (OD_legs service od))
         (dict_values (Service.ods service)).

Definition Leg_passengers_spec (service : (Service.t R)) (leg : Leg.t)
    : list (Passenger.t R) :=
  concat (map OD.passengers (ods_crossing service leg)).

(** the OD keys of an itinerary: every pair of positions [i < j], grouped
    by [j] *)
Definition od_keys_upto (itinerary : list Station) (j : nat)
    : list (Station * Station) :=
  map (fun p => (p, nth j itinerary 0)) (firstn j itinerary).

Definition od_keys (itinerary : list Station) : list (Station * Station) :=
  flat_map (od_keys_upto itinerary) (seq 1 (length itinerary - 1)).

(** the leg of every consecutive pair of an itinerary *)
Definition consecutive_legs (itinerary : list Station) : list Leg.t :=
  map (fun k => Leg.make k (nth k itinerary 0) (nth (S k) itinerary 0))
      (seq 0 (length itinerary - 1)).

Section HistorySpec.
Local Open Scope Z_scope.

Definition sold_by (d : Z) (passengers : list (Passenger.t R))
    : list (Passenger.t R) :=
  filter (fun p => Passenger.sale_day_x p <=? d) passengers.

(** the prices of a list of passengers added one after the other onto [w] *)
Definition sum_from (w : R) (passengers : list (Passenger.t R)) : R :=
  fold_left (fun acc p => num_add acc (Passenger.price p)) passengers w.

(** insertion into a strictly ascending list of days *)
Fixpoint insert_day (d : Z) (days : list Z) : list Z :=
  match days with
  | [] => [d]
  | d' :: rest =>
      if d <? d' then d :: d' :: rest
      else if d =? d' then d' :: rest
      else d' :: insert_day d rest
  end.

(** the distinct sale days of a passenger list, ascending *)
Definition sale_days (passengers : list (Passenger.t R)) : list Z :=
  fold_right insert_day [] (map Passenger.sale_day_x passengers).

(** one triplet per distinct sale day of [ps]: the day, the number of
    passengers of [ps] sold up to that day and the sum of their prices,
    added in the order of [ps] *)
Definition cumulative (ps : list (Passenger.t R)) : list (triplet R) :=
  map (fun d => (d, Z.of_nat (length (sold_by d ps)), sum_from num_zero (sold_by d ps)))
      (sale_days ps).

(** the passengers sorted by sale day, then one triplet per distinct day *)
Definition history_spec (od : OD.t R) : list (triplet R) :=
  cumulative (sorted Passenger.sale_day_x (OD.passengers od)).
End HistorySpec.

Section ForecastSpec.
Local Open Scope Z_scope.

(** cumulative demand of a day at a price *)
Definition demand_at (demand : dict Z Z) (p : Z) : Z :=
  match dict_get demand p with Some d => d | None => 0 end.

(** the demand a row gives at price [p] when the scan reaches the level
    [(p, count)]: a row that is the pricing object holds [count] there *)
Definition row_demand (demand : row) (p count : Z) : Z :=
  match demand with
  | Own d => demand_at d p
  | ThePricing => count
  end.

(** one scan of the price levels for a day: returns the inventory after
    the scan with the day's [sold] and the running [money] *)
Fixpoint scan_spec (demand : row) (levels : dict Z Z) (sold : Z) (money : R)
    : dict Z Z * Z * R :=
  match levels with
  | [] => ([], sold, money)
  | (p, count) :: rest =>
      let want := row_demand demand p count - sold in
      let fill := Z.min want count in
      if fill <=? 0 then
        let '(rest', sold', money') := scan_spec demand rest sold money in
        ((p, count) :: rest', sold', money')
      else
        let '(rest', sold', money') :=
          scan_spec demand rest (sold + fill) (num_add_int money (p * fill)) in
        ((p, count - fill) :: rest', sold', money')
  end.

Fixpoint days_spec (days : dict Z row) (pricing : dict Z Z)
    (head_count : Z) (money : R) : dict Z Z * list (triplet R) :=
  match days with
  | [] => (pricing, [])
  | (day, demand) :: rest =>
      let '(pricing', sold, money') := scan_spec demand pricing 0 money in
      let head_count' := head_count + sold in
      let '(pricing'', out) := days_spec rest pricing' head_count' money' in
      (pricing'', (day, head_count', money') :: out)
  end.

Definition forecast_spec (od : OD.t R) (pricing : dict Z Z)
    (demand_matrix : dict Z row) : dict Z Z * list (triplet R) :=
  days_spec demand_matrix pricing
            (Z.of_nat (length (OD.passengers od)))
            (sum_prices (OD.passengers od)).

(** a row gives a demand for every price of [keys] *)
Definition row_covers (demand : row) (keys : list Z) : Prop :=
  match demand with
  | Own d => forall p, In p keys -> dict_get d p <> None
  | ThePricing => True
  end.

(** every day of the matrix gives a demand for every price of [pricing] *)
Definition covers (demand_matrix : dict Z row) (pricing : dict Z Z) : Prop :=
  forall day demand, In (day, demand) demand_matrix ->
  row_covers demand (dict_keys pricing).

(** some row lacks a price of [keys]; such a row is not the pricing object *)
Definition lacking (demand_matrix : dict Z row) (keys : list Z) : Prop :=
  exists day d p,
    In (day, Own d) demand_matrix /\ In p keys /\ dict_get d p = None.

Definition coversb (demand_matrix : dict Z row) (pricing : dict Z Z) : bool :=
  forallb (fun entry =>
             match snd entry with
             | Own d => forallb (has_key d) (dict_keys pricing)
             | ThePricing => true
             end)
          demand_matrix.

(** the demand matrix as its reader sees it: each row with its entries *)
Definition rows_seen (pricing : dict Z Z) (demand_matrix : dict Z row)
    : dict Z (dict Z Z) :=
  map (fun entry =>
         (fst entry, match snd entry with Own d => d | ThePricing => pricing end))
      demand_matrix.

(** no row of the matrix is the pricing object *)
Definition apart (demand_matrix : dict Z row) : Prop :=
  Forall (fun entry => snd entry <> ThePricing) demand_matrix.

(** seats sold per day, from the emitted cumulative counts *)
Fixpoint sold_per_day (before : Z) (out : list (triplet R)) : list Z :=
  match out with
  | [] => []
  | (_, head_count, _) :: rest => (head_count - before) :: sold_per_day head_count rest
  end.

(** every amount is at least the one before it, [before] being the first *)
Fixpoint never_drops (le : R -> R -> Prop) (before : R) (amounts : list R)
    : Prop :=
  match amounts with
  | [] => True
  | money :: rest => le before money /\ never_drops le money rest
  end.

(** no price is negative *)
Definition prices_nonneg (pricing : dict Z Z) : Prop :=
  Forall (fun level => 0 <= fst level) pricing.

(** no level has a seat left *)
Definition sold_out (pricing : dict Z Z) : Prop :=
  Forall (fun level => snd level <= 0) pricing.

Definition inventory (pricing : dict Z Z) : Z :=
  fold_right Z.add 0 (dict_values pricing).

Definition final_count (before : Z) (out : list (triplet R)) : Z :=
  last (map t_count out) before.

(** [after] has the price levels of [before], in the same order, each with
    at most the inventory it has in [before] *)
Definition depleted (after before : dict Z Z) : Prop :=
  Forall2 (fun a b => fst a = fst b /\ snd a <= snd b) after before.

Definition in_stock (pricing : dict Z Z) : Prop :=
  Forall (fun level => 0 <= snd level) pricing.
End ForecastSpec.

End Model.

(** money made per day, from the emitted cumulative revenues in [int] *)
Fixpoint revenue_per_day (before : Z) (out : list (triplet Z)) : list Z :=
  match out with
  | [] => []
  | (_, _, money) :: rest => (money - before)%Z :: revenue_per_day money rest
  end.

(** ** The example of the script *)

Module Scenario.
Local Open Scope Z_scope.

Definition ply : Station := 0%nat.
Definition lpd : Station := 1%nat.
Definition msc : Station := 2%nat.

Definition itinerary := [ply; lpd; msc].

Definition manifest : list (Passenger.t Z) := [
  Passenger.make ply lpd (-30) 20;
  Passenger.make ply lpd (-25) 30;
  Passenger.make ply lpd (-20) 40;
  Passenger.make ply lpd (-20) 40;
  Passenger.make ply msc (-10) 50 ].

Definition service : Service.t Z :=
  fst ((load_itinerary itinerary ;; load_passenger_manifest manifest)
         (Service_init "7601"%string 7)).

Definition od_ply_lpd : option (OD.t Z) :=
  dict_get (Service.ods service) (ply, lpd).

Definition pricing : dict Z Z := [(10, 0); (20, 2); (30, 5); (40, 5); (50, 5)].

Definition demand_matrix : dict Z row := [
  (-7, Own [(10, 5); (20, 1); (30, 0); (40, 0); (50, 0)]);
  (-6, Own [(10, 5); (20, 2); (30, 1); (40, 1); (50, 1)]);
  (-5, Own [(10, 5); (20, 4); (30, 3); (40, 2); (50, 1)]);
  (-4, Own [(10, 5); (20, 5); (30, 4); (40, 3); (50, 1)]);
  (-3, Own [(10, 5); (20, 5); (30, 5); (40, 3); (50, 2)]);
  (-2, Own [(10, 5); (20, 5); (30, 5); (40, 4); (50, 3)]);
  (-1, Own [(10, 5); (20, 5); (30, 5); (40, 5); (50, 4)]);
  (0, Own [(10, 5); (20, 5); (30, 5); (40, 5); (50, 5)]) ].

(** the OD Paris-Lyon with its four passengers, and the objects of the
    call [od_ply_lpd.forecast(pricing, demand_matrix)] *)
Definition od : OD.t Z :=
  match od_ply_lpd with
  | Some od => od
  | None => OD.make ply lpd []
  end.

Definition heap : Heap.t Z := Heap.make od pricing demand_matrix.
End Scenario.

(** ** A demand matrix whose last row is the pricing object *)

Module Shared.
Local Open Scope Z_scope.

Definition pricing : dict Z Z := [(10, 3); (20, 5)].

(** [{-2: {10: 1, 20: 3}, -1: pricing}] *)
Definition demand_matrix : dict Z row :=
  [(-2, Own [(10, 1); (20, 3)]); (-1, ThePricing)].

Definition heap : Heap.t Z :=
  Heap.make (OD.make 0%nat 1%nat []) pricing demand_matrix.
End Shared.

(** * Properties *)

(** ** Equality *)

Class PyEqLaws (K : Type) `{PyEq K} :=
  py_eqb_eq : forall a b : K, py_eqb a b = true <-> a = b.
Arguments PyEqLaws K {_}.

#[export] Instance PyEqLaws_nat : PyEqLaws nat.
Proof. exact Nat.eqb_eq. Qed.

#[export] Instance PyEqLaws_Z : PyEqLaws Z.
Proof. exact Z.eqb_eq. Qed.

#[export] Instance PyEqLaws_pair {A B} `{PyEqLaws A} `{PyEqLaws B} : PyEqLaws (A * B).
Proof.
  intros [a b] [c d]. unfold py_eqb, PyEq_pair; simpl.
  rewrite andb_true_iff, !py_eqb_eq. split.
  - intros [-> ->]. reflexivity.
  - intros E. injection E. auto.
Qed.

Section EqFacts.
Context {K : Type} `{PyEqLaws K}.

Lemma py_eqb_refl (a : K) : py_eqb a a = true.
Proof. now apply py_eqb_eq. Qed.

Lemma py_eqb_neq (a b : K) : py_eqb a b = false <-> a <> b.
Proof.
  split.
  - intros E Hab. apply py_eqb_eq in Hab. congruence.
  - intros Hab. destruct (py_eqb a b) eqn:E; [|reflexivity].
    apply py_eqb_eq in E. contradiction.
Qed.
End EqFacts.

(** ** Dictionaries *)

Section DictFacts.
Context {K V : Type} `{PyEqLaws K}.
Implicit Types (d : dict K V) (k : K) (v : V).

Lemma dict_get_none d k : dict_get d k = None <-> ~ In k (dict_keys d).
Proof.
  induction d as [|[k' v'] d IH]; simpl.
  - tauto.
  - destruct (py_eqb k' k) eqn:E.
    + apply py_eqb_eq in E. split; [discriminate | tauto].
    + apply py_eqb_neq in E. rewrite IH. tauto.
Qed.

Lemma dict_get_in d k v : dict_get d k = Some v -> In (k, v) d.
Proof.
  induction d as [|[k' v'] d IH]; simpl; [discriminate|].
  destruct (py_eqb k' k) eqn:E.
  - apply py_eqb_eq in E. intros [= ->]. left. congruence.
  - auto.
Qed.

Lemma dict_get_some_key d k : dict_get d k <> None <-> In k (dict_keys d).
Proof.
  rewrite dict_get_none. split; [|tauto].
  intros Hn. destruct (in_dec (fun a b => match py_eqb a b as c
      return py_eqb a b = c -> {a = b} + {a <> b} with
      | true => fun E => left (proj1 (py_eqb_eq a b) E)
      | false => fun E => right (proj1 (py_eqb_neq a b) E)
      end eq_refl) k (dict_keys d)); tauto.
Qed.

Lemma dict_set_fresh d k v :
  ~ In k (dict_keys d) -> dict_set d k v = d ++ [(k, v)].
Proof.
  induction d as [|[k' v'] d IH]; simpl; [reflexivity|].
  intros Hn. destruct (py_eqb k' k) eqn:E.
  - apply py_eqb_eq in E. tauto.
  - rewrite IH by tauto. reflexivity.
Qed.

Lemma dict_set_keys_present d k v :
  In k (dict_keys d) -> dict_keys (dict_set d k v) = dict_keys d.
Proof.
  induction d as [|[k' v'] d IH]; simpl; [tauto|].
  intros Hin. destruct (py_eqb k' k) eqn:E; simpl.
  - reflexivity.
  - apply py_eqb_neq in E. f_equal. apply IH. tauto.
Qed.

(** assignment at the key of an entry whose key does not occur before *)
Lemma dict_set_middle (pre post : dict K V) k v0 v :
  ~ In k (dict_keys pre) ->
  dict_set (pre ++ (k, v0) :: post) k v = pre ++ (k, v) :: post.
Proof.
  induction pre as [|[k' v'] pre IH]; simpl; intros Hn.
  - rewrite py_eqb_refl. reflexivity.
  - destruct (py_eqb k' k) eqn:E.
    + apply py_eqb_eq in E. tauto.
    + rewrite IH by tauto. reflexivity.
Qed.

Lemma dict_get_middle (pre post : dict K V) k v0 :
  ~ In k (dict_keys pre) ->
  dict_get (pre ++ (k, v0) :: post) k = Some v0.
Proof.
  induction pre as [|[k' v'] pre IH]; simpl; intros Hn.
  - rewrite py_eqb_refl. reflexivity.
  - destruct (py_eqb k' k) eqn:E.
    + apply py_eqb_eq in E. tauto.
    + apply IH. tauto.
Qed.

Lemma dict_get_set d k k' v :
  dict_get (dict_set d k v) k' = if py_eqb k k' then Some v else dict_get d k'.
Proof.
  induction d as [|[k0 v0] d IH]; simpl.
  - reflexivity.
  - destruct (py_eqb k0 k) eqn:E0; simpl.
    + apply py_eqb_eq in E0. subst k0.
      destruct (py_eqb k k'); reflexivity.
    + destruct (py_eqb k0 k') eqn:E1; [|exact IH].
      apply py_eqb_eq in E1. subst k0. apply py_eqb_neq in E0.
      assert (E : py_eqb k k' = false) by (apply py_eqb_neq; congruence).
      now rewrite E.
Qed.

Lemma fold_dict_set_fresh (kvs : list (K * V)) d :
  NoDup (dict_keys d ++ map fst kvs) ->
  fold_left (fun acc kv => dict_set acc (fst kv) (snd kv)) kvs d = d ++ kvs.
Proof.
  revert d. induction kvs as [|[k v] kvs IH]; intros d Hnd; simpl.
  - now rewrite app_nil_r.
  - simpl in Hnd. rewrite dict_set_fresh.
    + rewrite IH.
      * now rewrite <- app_assoc.
      * unfold dict_keys in *. rewrite map_app, <- app_assoc. exact Hnd.
    + apply NoDup_remove_2 in Hnd. intros Hin. apply Hnd.
      apply in_or_app. now left.
Qed.
End DictFacts.

(** ** Loading an itinerary *)

Section ListFacts.
Context {A : Type}.

Lemma firstn_snoc (l : list A) (k : nat) (d : A) :
  k < length l -> firstn (S k) l = firstn k l ++ [nth k l d].
Proof.
  revert k. induction l as [|x l IH]; intros k Hk; simpl in Hk; [lia|].
  destruct k as [|k]; [reflexivity|].
  rewrite firstn_cons, (IH k) by lia. reflexivity.
Qed.

Lemma skipn_nth_cons (l : list A) (k : nat) (d : A) :
  k < length l -> skipn k l = nth k l d :: skipn (S k) l.
Proof.
  revert k. induction l as [|x l IH]; intros k Hk; simpl in Hk; [lia|].
  destruct k as [|k]; [reflexivity|].
  simpl. apply IH. lia.
Qed.

Lemma in_firstn_iff (l : list A) (k : nat) (a : A) :
  In a (firstn k l) <-> exists i, i < k /\ nth_error l i = Some a.
Proof.
  revert k. induction l as [|x l IH]; intros k.
  - rewrite firstn_nil. split; [intros []|].
    intros (i & _ & Hi). destruct i; discriminate.
  - destruct k as [|k]; simpl.
    + split; [intros []|]. intros (i & Hi & _). lia.
    + rewrite IH. split.
      * intros [->|(i & Hi & Hn)].
        -- exists 0. split; [lia|reflexivity].
        -- exists (S i). split; [lia|exact Hn].
      * intros (i & Hi & Hn). destruct i as [|i]; simpl in Hn.
        -- left. congruence.
        -- right. exists i. split; [lia|exact Hn].
Qed.

Lemma NoDup_firstn (l : list A) (k : nat) : NoDup l -> NoDup (firstn k l).
Proof.
  intros Hnd. rewrite <- (firstn_skipn k l) in Hnd.
  revert Hnd. generalize (firstn k l) (skipn k l).
  intros l1 l2. induction l1 as [|x l1 IH]; simpl; intros Hnd.
  - constructor.
  - inversion Hnd as [|? ? Hx Hnd']; subst. constructor.
    + intros Hin. apply Hx, in_or_app. now left.
    + auto.
Qed.
End ListFacts.

Section LoadItinerary.
Context {R : Type}.

Definition with_ods (s : (Service.t R)) (d : dict (Station * Station) (OD.t R)) : (Service.t R) :=
  Service.make (Service.name s) (Service.departure_date s) (Service.legs s) d.

Definition set_entry (acc : dict (Station * Station) (OD.t R))
    (kv : Station * Station * (OD.t R)) : dict (Station * Station) (OD.t R) :=
  dict_set acc (fst kv) (snd kv).

(** the entries assigned for one [station] of the itinerary *)
Definition new_ods (station : Station) (prevs : list Station)
    : list (Station * Station * (OD.t R)) :=
  map (fun p => ((p, station), OD.make p station [])) prevs.

Lemma load_itinerary_prevs_run prevs station : forall prev (s : Service.t R),
  load_itinerary_prevs prevs station prev s =
  (with_ods s (fold_left set_entry (new_ods station prevs) (Service.ods s)),
   Ok (fold_left (fun _ p => Some p) prevs prev)).
Proof.
  induction prevs as [|p prevs IH]; intros prev s; simpl.
  - destruct s; reflexivity.
  - unfold bind, ods_setitem, modify. rewrite IH. reflexivity.
Qed.

Lemma last_prev (it : list Station) (k : nat) (prev : option Station) :
  1 <= k <= length it ->
  fold_left (fun _ p => Some p) (firstn k it) prev = Some (nth (k - 1) it 0).
Proof.
  intros Hk. destruct k as [|k]; [lia|].
  rewrite (firstn_snoc it 0) by lia. rewrite fold_left_app. simpl.
  now rewrite Nat.sub_0_r.
Qed.

Lemma fresh_leg_id_snoc (legs : list Leg.t) (leg : Leg.t) :
  fresh_leg_id (legs ++ [leg]) = Nat.max (fresh_leg_id legs) (S (Leg.id leg)).
Proof.
  unfold fresh_leg_id.
  induction legs as [|x legs IH]; cbn [fold_right app]; [lia|]. rewrite IH. lia.
Qed.

Lemma fresh_leg_id_above (legs : list Leg.t) (leg : Leg.t) :
  In leg legs -> Leg.id leg < fresh_leg_id legs.
Proof.
  unfold fresh_leg_id.
  induction legs as [|x legs IH]; cbn [fold_right In]; [intros []|].
  intros [->|Hin]; [lia|]. specialize (IH Hin). lia.
Qed.

Lemma load_itinerary_loop_run (it : list Station) : forall m k prev (s : Service.t R),
  1 <= k -> k + m = length it ->
  load_itinerary_loop (combine (seq k m) (skipn k it)) it prev s =
  (Service.make (Service.name s) (Service.departure_date s)
     (Service.legs s ++
        map (fun j => Leg.make (fresh_leg_id (Service.legs s) + (j - k))
                               (nth (j - 1) it 0) (nth j it 0)) (seq k m))
     (fold_left set_entry
        (flat_map (fun j => new_ods (nth j it 0) (firstn j it)) (seq k m))
        (Service.ods s)),
   Ok tt).
Proof.
  induction m as [|m IH]; intros k prev s Hk Hlen.
  - simpl. rewrite app_nil_r. destruct s; reflexivity.
  - rewrite (skipn_nth_cons it 0) by lia. cbn [seq combine load_itinerary_loop].
    destruct (Nat.eqb_spec k 0) as [E|_]; [lia|].
    unfold bind at 1. rewrite load_itinerary_prevs_run.
    unfold islice. rewrite last_prev by lia.
    unfold bind, legs_append_new, modify.
    rewrite IH by lia. cbn [Service.name Service.departure_date Service.legs
      Service.ods with_ods flat_map map].
    rewrite fold_left_app. f_equal. f_equal.
    rewrite <- app_assoc. f_equal. cbn [app]. f_equal.
    + f_equal. lia.
    + apply map_ext_in. intros j Hj. apply in_seq in Hj.
      rewrite fresh_leg_id_snoc. cbn [Leg.id]. f_equal. lia.
Qed.

Lemma od_keys_new_ods (it : list Station) (l : list nat) :
  map fst (flat_map (fun j => new_ods (nth j it 0) (firstn j it)) l) =
  flat_map (od_keys_upto it) l.
Proof.
  induction l as [|j l IH]; simpl; [reflexivity|].
  rewrite map_app, IH. f_equal.
  unfold new_ods, od_keys_upto. rewrite map_map. reflexivity.
Qed.

Lemma new_ods_entries (it : list Station) (l : list nat) :
  flat_map (fun j => new_ods (nth j it 0) (firstn j it)) l =
  map (fun k => (k, OD.make (fst k) (snd k) [])) (flat_map (od_keys_upto it) l).
Proof.
  induction l as [|j l IH]; simpl; [reflexivity|].
  rewrite map_app, IH. f_equal.
  unfold new_ods, od_keys_upto. rewrite map_map. reflexivity.
Qed.

Lemma in_od_keys_range (it : list Station) (m k : nat) (a b : Station) :
  k + m <= length it ->
  In (a, b) (flat_map (od_keys_upto it) (seq k m)) <->
  exists i j, i < j /\ k <= j < k + m /\
              nth_error it i = Some a /\ nth_error it j = Some b.
Proof.
  intros Hlen. rewrite in_flat_map. split.
  - intros (j & Hj & Hin). apply in_seq in Hj.
    unfold od_keys_upto in Hin. apply in_map_iff in Hin.
    destruct Hin as (p & [= <- <-] & Hp). apply in_firstn_iff in Hp.
    destruct Hp as (i & Hi & Hn). exists i, j.
    repeat split; try lia; [exact Hn|]. apply nth_error_nth'. lia.
  - intros (i & j & Hij & Hj & Hi & Hb). exists j. split.
    + apply in_seq. lia.
    + unfold od_keys_upto. apply in_map_iff. exists a. split.
      * f_equal. now apply nth_error_nth.
      * apply in_firstn_iff. exists i. auto.
Qed.

Lemma NoDup_od_keys_range (it : list Station) : NoDup it -> forall m k,
  k + m <= length it -> NoDup (flat_map (od_keys_upto it) (seq k m)).
Proof.
  intros Hnd. induction m as [|m IH]; intros k Hlen; simpl; [constructor|].
  apply NoDup_app.
  - unfold od_keys_upto. apply NoDup_map_NoDup_ForallPairs.
    + intros x y _ _ E. congruence.
    + now apply NoDup_firstn.
  - apply IH. lia.
  - intros [a b] Hin Hin'.
    unfold od_keys_upto in Hin. apply in_map_iff in Hin.
    destruct Hin as (p & [= <- <-] & _).
    apply in_od_keys_range in Hin'; [|lia].
    destruct Hin' as (i & j & _ & Hj & _ & Hb).
    apply (nth_error_nth _ _ 0) in Hb.
    assert (j = k); [|lia].
    apply (proj1 (NoDup_nth it 0) Hnd); [lia|lia|exact Hb].
Qed.

Lemma length_od_keys_range (it : list Station) : forall m k,
  k + m <= length it ->
  2 * length (flat_map (od_keys_upto it) (seq k m)) = m * (2 * k + m - 1).
Proof.
  induction m as [|m IH]; intros k Hlen; [reflexivity|].
  cbn [seq flat_map]. rewrite length_app. unfold od_keys_upto at 1.
  rewrite length_map, firstn_length_le by lia.
  specialize (IH (S k) ltac:(lia)).
  replace (2 * S k + m - 1) with (2 * k + m + 1) in IH by lia.
  replace (2 * k + S m - 1) with (2 * k + m) by lia.
  nia.
Qed.

(** the state a fresh service reaches by [load_itinerary] *)
Lemma load_itinerary_run (name : string) (date : Z) (it : list Station) :
  NoDup it ->
  load_itinerary it (Service_init (R:=R) name date) =
  (Service.make name date (consecutive_legs it)
     (map (fun k => (k, OD.make (fst k) (snd k) [])) (od_keys it)),
   Ok tt).
Proof.
  intros Hnd. unfold load_itinerary, enumerate, Service_init.
  destruct it as [|x it']; [reflexivity|].
  set (it := x :: it').
  change (combine (seq 0 (length it)) it)
    with ((0, x) :: combine (seq 1 (length it')) (skipn 1 it)).
  cbn [load_itinerary_loop Nat.eqb].
  rewrite load_itinerary_loop_run by (subst it; simpl; lia).
  cbn [Service.name Service.departure_date Service.legs Service.ods app length].
  f_equal. unfold consecutive_legs, od_keys.
  replace (length it - 1) with (length it') by (subst it; simpl; lia).
  f_equal.
  - rewrite <- seq_shift, map_map. apply map_ext. intros k.
    simpl. now rewrite Nat.sub_0_r.
  - unfold set_entry. rewrite fold_dict_set_fresh.
    + cbn [app]. apply new_ods_entries.
    + cbn [dict_keys map app]. rewrite od_keys_new_ods. apply NoDup_od_keys_range; [exact Hnd|].
      subst it; simpl; lia.
Qed.

Lemma has_key_in {K V} `{PyEqLaws K} (d : dict K V) (k : K) :
  has_key d k = true <-> In k (dict_keys d).
Proof.
  rewrite <- dict_get_some_key. unfold has_key.
  destruct (dict_get d k); split; congruence.
Qed.

Lemma has_key_false {K V} `{PyEqLaws K} (d : dict K V) (k : K) :
  has_key d k = false <-> dict_get d k = None.
Proof. unfold has_key. destruct (dict_get d k); split; congruence. Qed.

Lemma dict_keys_entries {K V} (f : K -> V) (ks : list K) :
  dict_keys (map (fun k => (k, f k)) ks) = ks.
Proof. unfold dict_keys. rewrite map_map. simpl. apply map_id. Qed.

Lemma in_od_keys (it : list Station) (a b : Station) :
  In (a, b) (od_keys it) <->
  exists i j, i < j /\ nth_error it i = Some a /\ nth_error it j = Some b.
Proof.
  destruct it as [|x it'].
  { simpl. split; [intros []|]. intros (i & j & _ & Hi & _).
    destruct i; discriminate. }
  set (it := x :: it').
  unfold od_keys. rewrite in_od_keys_range by (subst it; simpl; lia). split.
  - intros (i & j & Hij & _ & Hi & Hj). eauto.
  - intros (i & j & Hij & Hi & Hj). exists i, j.
    assert (j < length it) by (apply nth_error_Some; congruence).
    repeat split; auto; lia.
Qed.

(** C5: [load_itinerary] on a fresh service and an itinerary of [N] pairwise
    distinct stations raises nothing and creates the [N - 1] legs of the
    consecutive pairs, in order, and [N * (N - 1) / 2] ODs, one under the key
    [(itinerary[i], itinerary[j])] for every [i < j] and none in the reverse
    direction; with [N <= 1] it creates no leg and no OD. *)
Theorem load_itinerary_counts (name : string) (date : Z) (itinerary : list Station) :
  NoDup itinerary ->
  let N := length itinerary in
  exists s,
    load_itinerary itinerary (Service_init (R:=R) name date) = (s, Ok tt) /\
    length (Service.legs s) = N - 1 /\
    (forall k, k < N - 1 ->
       nth_error (Service.legs s) k =
       Some (Leg.make k (nth k itinerary 0) (nth (S k) itinerary 0))) /\
    length (Service.ods s) = N * (N - 1) / 2 /\
    NoDup (dict_keys (Service.ods s)) /\
    (forall a b, has_key (Service.ods s) (a, b) = true <->
       exists i j, i < j /\ nth_error itinerary i = Some a /\
                   nth_error itinerary j = Some b) /\
    (forall a b od, dict_get (Service.ods s) (a, b) = Some od ->
       od = OD.make a b []) /\
    (forall a b, has_key (Service.ods s) (a, b) = true ->
       has_key (Service.ods s) (b, a) = false) /\
    (N <= 1 -> Service.legs s = [] /\ Service.ods s = []).
Proof.
  intros Hnd N. eexists. split; [apply load_itinerary_run; exact Hnd|].
  cbn [Service.legs Service.ods].
  assert (Hkeys : forall a b,
    has_key (map (fun k => (k, OD.make (R:=R) (fst k) (snd k) [])) (od_keys itinerary))
            (a, b) = true <->
    exists i j, i < j /\ nth_error itinerary i = Some a /\
                nth_error itinerary j = Some b).
  { intros a b. rewrite has_key_in, dict_keys_entries. apply in_od_keys. }
  repeat split.
  - unfold consecutive_legs. now rewrite length_map, length_seq.
  - intros k Hk. unfold consecutive_legs.
    rewrite nth_error_map, nth_error_seq.
    destruct (Nat.ltb_spec k (length itinerary - 1)); [reflexivity|].
    fold N in H. lia.
  - rewrite length_map. unfold od_keys.
    destruct itinerary as [|x it']; [reflexivity|].
    set (it := x :: it') in *.
    pose proof (length_od_keys_range it (length it - 1) 1
                  ltac:(subst it; simpl; lia)) as E.
    fold N in E |- *. apply Nat.div_unique_exact; [discriminate|].
    rewrite E. replace (2 * 1 + (N - 1) - 1) with N by (subst N it; simpl; lia).
    apply Nat.mul_comm.
  - rewrite dict_keys_entries. unfold od_keys.
    destruct itinerary as [|x it']; [constructor|].
    apply NoDup_od_keys_range; [exact Hnd|simpl; lia].
  - apply Hkeys.
  - apply Hkeys.
  - intros a b od Hget. apply dict_get_in in Hget.
    apply in_map_iff in Hget. destruct Hget as ([a' b'] & E & _).
    simpl in E. congruence.
  - intros a b Hab. apply has_key_false.
    destruct (dict_get _ (b, a)) eqn:Hba; [|reflexivity]. exfalso.
    assert (Hba' : has_key
      (map (fun k => (k, OD.make (R:=R) (fst k) (snd k) [])) (od_keys itinerary))
      (b, a) = true) by (unfold has_key; now rewrite Hba).
    apply Hkeys in Hab. apply Hkeys in Hba'.
    destruct Hab as (i & j & Hij & Hi & Hj).
    destruct Hba' as (i' & j' & Hij' & Hi' & Hj').
    assert (Hl : forall n x, nth_error itinerary n = Some x -> n < length itinerary)
      by (intros n x Hn; apply nth_error_Some; congruence).
    assert (j = i').
    { apply (proj1 (NoDup_nth_error itinerary) Hnd); [eauto|congruence]. }
    assert (i = j').
    { apply (proj1 (NoDup_nth_error itinerary) Hnd); [eauto|congruence]. }
    lia.
  - unfold consecutive_legs. fold N. now replace (N - 1) with 0 by lia.
  - unfold od_keys. fold N. now replace (N - 1) with 0 by lia.
Qed.

End LoadItinerary.

Lemma load_itinerary_counts_witness :
  exists s,
    load_itinerary [0; 1; 2] (Service_init (R:=Z) "7601" 7) = (s, Ok tt) /\
    length (Service.legs s) = 2 /\ length (Service.ods s) = 3.
Proof.
  assert (Hnd : NoDup [0; 1; 2]).
  { repeat constructor; simpl; intuition discriminate. }
  destruct (load_itinerary_counts (R:=Z) "7601" 7 Hnd) as (s & Hrun & Hlegs & _ & Hods & _).
  exists s. repeat split; assumption.
Defined.

(** ** Loading a passenger manifest *)

(** ** Loading a passenger manifest *)

Section LoadManifest.
Context {R : Type}.

Definition od_key (p : (Passenger.t R)) : Station * Station :=
  (Passenger.origin p, Passenger.destination p).

(** the OD [od] after the passengers of [loaded] with its key were appended *)
Definition od_with (od : (OD.t R)) (k : Station * Station)
    (loaded : list (Passenger.t R)) : (OD.t R) :=
  OD.make (OD.origin od) (OD.destination od)
          (OD.passengers od ++ filter (fun p => py_eqb (od_key p) k) loaded).

(** [s'] is [s] after each passenger of [loaded] was appended to its OD *)
Definition manifest_loaded (s s' : (Service.t R)) (loaded : list (Passenger.t R)) : Prop :=
  Service.name s' = Service.name s /\
  Service.departure_date s' = Service.departure_date s /\
  Service.legs s' = Service.legs s /\
  dict_keys (Service.ods s') = dict_keys (Service.ods s) /\
  forall k od, dict_get (Service.ods s) k = Some od ->
               dict_get (Service.ods s') k = Some (od_with od k loaded).

Lemma load_passenger_manifest_ok (ps : list (Passenger.t R)) : forall s,
  (forall q, In q ps -> has_key (Service.ods s) (od_key q) = true) ->
  exists s', load_passenger_manifest ps s = (s', Ok tt) /\ manifest_loaded s s' ps.
Proof.
  induction ps as [|p ps IH]; intros s Hall.
  - exists s. split; [reflexivity|]. repeat split; auto.
    intros k od Hget. rewrite Hget. unfold od_with. simpl.
    rewrite app_nil_r. now destruct od.
  - cbn [load_passenger_manifest]. fold (od_key p).
    pose proof (Hall p (or_introl eq_refl)) as Hp.
    unfold has_key in Hp. destruct (dict_get (Service.ods s) (od_key p)) as [od0|] eqn:Hget0;
      [clear Hp|discriminate].
    unfold bind at 1. rewrite Hget0. cbn [subscript ret].
    unfold bind at 1. unfold od_passengers_append, ods_setitem, modify.
    set (s1 := Service.make _ _ _ _).
    destruct (IH s1) as (s' & Hrun & Hn & Hd & Hl & Hk & Hods).
    { intros q Hq. subst s1. cbn [Service.ods]. unfold has_key.
      rewrite dict_get_set. destruct (py_eqb (od_key p) (od_key q)); [reflexivity|].
      apply (Hall q). now right. }
    exists s'. split; [exact Hrun|]. subst s1. cbn [Service.name
      Service.departure_date Service.legs Service.ods] in *.
    repeat split; auto.
    + rewrite Hk. apply dict_set_keys_present.
      apply dict_get_some_key. congruence.
    + intros k od Hget.
      specialize (Hods k). rewrite dict_get_set in Hods.
      unfold od_with in *. cbn [filter].
      destruct (py_eqb (od_key p) k) eqn:E.
      * apply py_eqb_eq in E. subst k.
        assert (od0 = od) by congruence. subst od0.
        rewrite (Hods _ eq_refl). cbn [OD.origin OD.destination OD.passengers].
        now rewrite <- app_assoc.
      * now apply Hods.
Qed.

Lemma load_passenger_manifest_app (ps qs : list (Passenger.t R)) : forall s,
  load_passenger_manifest (ps ++ qs) s =
  (load_passenger_manifest ps ;; load_passenger_manifest qs) s.
Proof.
  induction ps as [|p ps IH]; intros s; [reflexivity|].
  cbn [app load_passenger_manifest]. unfold bind in *.
  destruct (dict_get (Service.ods s) _); cbn [subscript ret raise]; [|reflexivity].
  unfold od_passengers_append, ods_setitem, modify. apply IH.
Qed.

Lemma load_passenger_manifest_stops (ps : list (Passenger.t R)) (p : (Passenger.t R))
    (post : list (Passenger.t R)) (s : (Service.t R)) :
  (forall q, In q ps -> has_key (Service.ods s) (od_key q) = true) ->
  has_key (Service.ods s) (od_key p) = false ->
  exists s', load_passenger_manifest (ps ++ p :: post) s = (s', Raise KeyError) /\
             load_passenger_manifest ps s = (s', Ok tt) /\
             manifest_loaded s s' ps.
Proof.
  intros Hall Hp. destruct (load_passenger_manifest_ok ps s Hall) as (s' & Hrun & Hl).
  exists s'. repeat split; try apply Hl; auto.
  rewrite load_passenger_manifest_app. unfold bind at 1. rewrite Hrun.
  cbn [load_passenger_manifest]. unfold bind at 1. fold (od_key p).
  assert (E : dict_get (Service.ods s') (od_key p) = None).
  { apply dict_get_none. destruct Hl as (_ & _ & _ & -> & _).
    apply dict_get_none. now apply has_key_false. }
  rewrite E. reflexivity.
Qed.

Lemma first_unrouted (s : (Service.t R)) (ps : list (Passenger.t R)) :
  (forall q, In q ps -> has_key (Service.ods s) (od_key q) = true) \/
  exists pre p post, ps = pre ++ p :: post /\
    (forall q, In q pre -> has_key (Service.ods s) (od_key q) = true) /\
    has_key (Service.ods s) (od_key p) = false.
Proof.
  induction ps as [|p ps IH].
  - left. intros q [].
  - destruct (has_key (Service.ods s) (od_key p)) eqn:Hp.
    + destruct IH as [Hall|(pre & q & post & -> & Hpre & Hq)].
      * left. intros q [<-|Hq]; auto.
      * right. exists (p :: pre), q, post.
        split; [reflexivity|]. split; [|exact Hq].
        intros r [<-|Hr]; auto.
    + right. exists [], p, ps.
      split; [reflexivity|]. split; [intros q []|exact Hp].
Qed.

(** C9: [load_passenger_manifest] raises, and then a [KeyError], exactly when
    some passenger of the manifest has an (origin, destination) pair under
    which the service has no OD.  The load stops at the first such
    passenger: the passengers before it have been appended to their ODs,
    the others have not. *)
Theorem load_passenger_manifest_fail_fast (s : (Service.t R)) (manifest : list (Passenger.t R)) :
  ((exists e, snd (load_passenger_manifest manifest s) = Raise e) <->
   (exists p, In p manifest /\ has_key (Service.ods s) (od_key p) = false)) /\
  (forall e, snd (load_passenger_manifest manifest s) = Raise e -> e = KeyError) /\
  (forall pre p post,
     manifest = pre ++ p :: post ->
     (forall q, In q pre -> has_key (Service.ods s) (od_key q) = true) ->
     has_key (Service.ods s) (od_key p) = false ->
     exists s', load_passenger_manifest manifest s = (s', Raise KeyError) /\
                manifest_loaded s s' pre) /\
  ((forall q, In q manifest -> has_key (Service.ods s) (od_key q) = true) ->
     exists s', load_passenger_manifest manifest s = (s', Ok tt) /\
                manifest_loaded s s' manifest).
Proof.
  repeat split.
  - intros (e & He). destruct (first_unrouted s manifest)
      as [Hall|(pre & p & post & -> & Hpre & Hp)].
    + destruct (load_passenger_manifest_ok manifest s Hall) as (s' & Hrun & _).
      rewrite Hrun in He. discriminate.
    + exists p. split; [|exact Hp]. apply in_or_app. right. now left.
  - intros (p & Hin & Hp). destruct (first_unrouted s manifest)
      as [Hall|(pre & q & post & -> & Hpre & Hq)].
    + rewrite (Hall p Hin) in Hp. discriminate.
    + destruct (load_passenger_manifest_stops pre q post s Hpre Hq) as (s' & Hrun & _).
      exists KeyError. now rewrite Hrun.
  - intros e He. destruct (first_unrouted s manifest)
      as [Hall|(pre & q & post & -> & Hpre & Hq)].
    + destruct (load_passenger_manifest_ok manifest s Hall) as (s' & Hrun & _).
      rewrite Hrun in He. discriminate.
    + destruct (load_passenger_manifest_stops pre q post s Hpre Hq) as (s' & Hrun & _).
      rewrite Hrun in He. simpl in He. congruence.
  - intros pre p post -> Hpre Hp.
    destruct (load_passenger_manifest_stops pre p post s Hpre Hp) as (s' & Hrun & _ & Hl).
    exists s'. split; assumption.
  - apply load_passenger_manifest_ok.
Qed.

End LoadManifest.

Lemma load_passenger_manifest_fail_fast_witness :
  exists s',
    load_passenger_manifest
      [Passenger.make 0 1 (-3) 20%Z; Passenger.make 1 0 (-2) 30%Z;
       Passenger.make 0 2 (-1) 50%Z] Scenario.service = (s', Raise KeyError) /\
    manifest_loaded Scenario.service s' [Passenger.make 0 1 (-3) 20%Z].
Proof.
  destruct (load_passenger_manifest_fail_fast Scenario.service
    [Passenger.make 0 1 (-3) 20%Z; Passenger.make 1 0 (-2) 30%Z;
     Passenger.make 0 2 (-1) 50%Z]) as (_ & _ & Hstop & _).
  apply (Hstop [Passenger.make 0 1 (-3) 20%Z] (Passenger.make 1 0 (-2) 30%Z)
               [Passenger.make 0 2 (-1) 50%Z]).
  - reflexivity.
  - intros q [<-|[]]. reflexivity.
  - reflexivity.
Defined.

(** ** The legs of an OD *)

Section ODLegs.
Context {R : Type}.

Lemma _legs_first_split (o : Station) (it : list Leg.t) :
  (Forall (fun l => Leg.origin l <> o) it /\ _legs_first o it = ([], [])) \/
  (exists pre leg rest,
     it = pre ++ leg :: rest /\
     Forall (fun l => Leg.origin l <> o) pre /\
     Leg.origin leg = o /\
     _legs_first o it = ([leg], rest)).
Proof.
  induction it as [|l it IH]; simpl.
  - left. split; [constructor|reflexivity].
  - destruct (py_eqb (Leg.origin l) o) eqn:E.
    + apply py_eqb_eq in E. right. exists [], l, it. repeat split; auto.
    + apply py_eqb_neq in E.
      destruct IH as [[Hall Hrun]|(pre & leg & rest & -> & Hpre & Ho & Hrun)].
      * left. split; [constructor; assumption|assumption].
      * right. exists (l :: pre), leg, rest. repeat split; auto.
Qed.

Lemma _legs_second_split (d : Station) (it : list Leg.t) :
  exists post,
    it = _legs_second d it ++ post /\
    Forall (fun l => Leg.origin l <> d) (_legs_second d it) /\
    (post = [] \/ exists l post', post = l :: post' /\ Leg.origin l = d).
Proof.
  induction it as [|l it IH]; simpl.
  - exists []. repeat split; auto.
  - destruct (py_eqb (Leg.origin l) d) eqn:E.
    + apply py_eqb_eq in E. exists (l :: it). repeat split; eauto.
    + apply py_eqb_neq in E. destruct IH as (post & Hit & Hall & Hpost).
      exists post. repeat split; auto. simpl. now rewrite <- Hit.
Qed.

Lemma _legs_first_index (o : Station) (it : list Leg.t) :
  match first_origin_index o it with
  | None => _legs_first o it = ([], [])
  | Some i => exists leg, skipn i it = leg :: skipn (S i) it /\
                          _legs_first o it = ([leg], skipn (S i) it)
  end.
Proof.
  induction it as [|l it IH]; simpl; [reflexivity|].
  change (py_eqb (Leg.origin l) o) with (Nat.eqb (Leg.origin l) o).
  destruct (Nat.eqb (Leg.origin l) o).
  - exists l. split; reflexivity.
  - destruct (first_origin_index o it) as [i|]; simpl; exact IH.
Qed.

Lemma _legs_second_index (d : Station) (it : list Leg.t) :
  _legs_second d it =
  match first_origin_index d it with
  | None => it
  | Some n => firstn n it
  end.
Proof.
  induction it as [|l it IH]; simpl; [reflexivity|].
  change (py_eqb (Leg.origin l) d) with (Nat.eqb (Leg.origin l) d).
  destruct (Nat.eqb (Leg.origin l) d); [reflexivity|].
  rewrite IH. destruct (first_origin_index d it); reflexivity.
Qed.

Lemma OD_legs_refines (service : (Service.t R)) (od : (OD.t R)) :
  OD_legs service od = OD_legs_spec service od.
Proof.
  unfold OD_legs, _legs, OD_legs_spec.
  pose proof (_legs_first_index (OD.origin od) (Service.legs service)) as H1.
  destruct (first_origin_index (OD.origin od) (Service.legs service)) as [i|].
  - destruct H1 as (leg & Hskip & ->). rewrite _legs_second_index, Hskip.
    destruct (first_origin_index _ _); reflexivity.
  - now rewrite H1.
Qed.

Lemma OD_legs_none (service : (Service.t R)) (od : (OD.t R)) :
  (forall leg, In leg (Service.legs service) -> Leg.origin leg <> OD.origin od) ->
  OD_legs service od = [].
Proof.
  intros Hno. unfold OD_legs, _legs.
  destruct (_legs_first_split (OD.origin od) (Service.legs service))
    as [[_ ->]|(pre & leg & rest & Hlegs & _ & Ho & _)]; [reflexivity|].
  exfalso. apply (Hno leg); [|exact Ho].
  rewrite Hlegs. apply in_or_app. right. now left.
Qed.

(** C4: [OD.legs] is a contiguous part of the service's legs: it starts at
    the first leg leaving the OD's origin and stops before the first later
    leg leaving the OD's destination, or at the end when there is none; it
    is empty, and nothing is raised, when no leg leaves the OD's origin.
    On the itinerary A-B-C-D the OD (A, C) has the legs A-B, B-C and the OD
    (B, D) the legs B-C, C-D. *)
Theorem OD_legs_contiguous (service : (Service.t R)) (od : (OD.t R)) :
  OD_legs service od = OD_legs_spec service od /\
  (exists pre post,
     Service.legs service = pre ++ OD_legs service od ++ post /\
     Forall (fun l => Leg.origin l <> OD.origin od) pre /\
     (OD_legs service od = [] -> post = []) /\
     (forall leg rest, OD_legs service od = leg :: rest ->
        Leg.origin leg = OD.origin od /\
        Forall (fun l => Leg.origin l <> OD.destination od) rest /\
        (post = [] \/
         exists l post', post = l :: post' /\ Leg.origin l = OD.destination od))) /\
  ((forall leg, In leg (Service.legs service) -> Leg.origin leg <> OD.origin od) ->
   OD_legs service od = []) /\
  ((exists leg, In leg (Service.legs service) /\ Leg.origin leg = OD.origin od) ->
   (forall leg, In leg (Service.legs service) ->
                Leg.origin leg <> OD.destination od) ->
   exists pre, Service.legs service = pre ++ OD_legs service od) /\
  (forall (name : string) (date : Z) (A B C D : Station) (ps : list (Passenger.t R)),
     NoDup [A; B; C; D] ->
     let s := fst (load_itinerary [A; B; C; D] ((Service_init (R:=R) name date))) in
     OD_legs s (OD.make A C ps) = [Leg.make 0 A B; Leg.make 1 B C] /\
     OD_legs s (OD.make B D ps) = [Leg.make 1 B C; Leg.make 2 C D]).
Proof.
  split; [apply OD_legs_refines|].
  split; [|split; [apply OD_legs_none|split]].
  - unfold OD_legs, _legs.
    destruct (_legs_first_split (OD.origin od) (Service.legs service))
      as [[Hall ->]|(pre & leg & rest & Hlegs & Hpre & Ho & ->)].
    + exists (Service.legs service), []. simpl. rewrite app_nil_r.
      split; [reflexivity|]. split; [exact Hall|]. split; [reflexivity|].
      intros leg0 rest0 [=].
    + destruct (_legs_second_split (OD.destination od) rest)
        as (post & Hrest & Hall & Hpost).
      exists pre, post. simpl. split; [|split; [exact Hpre|split]].
      * rewrite Hlegs. f_equal. f_equal. exact Hrest.
      * intros [=].
      * intros leg' rest' [= <- <-]. repeat split; assumption.
  - intros (leg0 & Hin0 & Ho0) Hdest. unfold OD_legs, _legs.
    destruct (_legs_first_split (OD.origin od) (Service.legs service))
      as [[Hall _]|(pre & leg & rest & Hlegs & _ & _ & ->)].
    + rewrite Forall_forall in Hall. now elim (Hall leg0 Hin0).
    + exists pre. rewrite Hlegs. f_equal. cbn [app]. f_equal.
      destruct (_legs_second_split (OD.destination od) rest)
        as (post & Hrest & _ & [->|(l & post' & -> & Hl)]).
      * now rewrite app_nil_r in Hrest.
      * exfalso. apply (Hdest l); [|exact Hl].
        rewrite Hlegs, Hrest. apply in_or_app. right. right.
        apply in_or_app. right. now left.
  - intros name date A B C D ps Hnd s. subst s.
    rewrite load_itinerary_run by exact Hnd.
    unfold OD_legs, _legs, consecutive_legs. simpl.
    unfold py_eqb, PyEq_nat.
    assert (HAB : A <> B /\ A <> C /\ A <> D /\ B <> C /\ B <> D /\ C <> D).
    { inversion Hnd as [|? ? H1 Hnd1]; subst.
      inversion Hnd1 as [|? ? H2 Hnd2]; subst.
      inversion Hnd2 as [|? ? H3 Hnd3]; subst.
      simpl in *. intuition congruence. }
    destruct HAB as (HAB & HAC & HAD & HBC & HBD & HCD).
    apply Nat.eqb_neq in HAB, HBC, HCD. split.
    + rewrite Nat.eqb_refl. simpl. unfold py_eqb, PyEq_nat.
      rewrite HBC, Nat.eqb_refl. reflexivity.
    + rewrite HAB, Nat.eqb_refl. simpl. unfold py_eqb, PyEq_nat.
      rewrite HCD. reflexivity.
Qed.

End ODLegs.

Lemma OD_legs_contiguous_witness :
  OD_legs Scenario.service (OD.make Scenario.msc Scenario.ply []) = [].
Proof.
  destruct (OD_legs_contiguous Scenario.service
              (OD.make Scenario.msc Scenario.ply [])) as (_ & _ & Hnone & _).
  apply Hnone. intros leg Hin. vm_compute in Hin.
  destruct Hin as [<-|[<-|[]]]; discriminate.
Defined.

(** ** The passengers of a leg *)

Section LegPassengers.
Context {R : Type}.

Lemma Leg_passengers_loop_concat (service : (Service.t R)) (self : Leg.t)
    (values : list (OD.t R)) : forall passengers,
  Leg_passengers_loop service self values passengers =
  passengers ++
  concat (map OD.passengers
              (filter (fun od => leg_in self (OD_legs service od)) values)).
Proof.
  induction values as [|od values IH]; intros passengers; simpl.
  - now rewrite app_nil_r.
  - destruct (leg_in self (OD_legs service od)); simpl.
    + rewrite IH. now rewrite <- app_assoc.
    + apply IH.
Qed.

Lemma length_concat_sum {A} (ls : list (list A)) :
  length (concat ls) = list_sum (map (@length A) ls).
Proof.
  induction ls as [|l ls IH]; simpl; [reflexivity|].
  now rewrite length_app, IH.
Qed.

(** C6: the passengers of a leg are the passengers of the ODs whose legs
    contain it, OD after OD in the iteration order of the service's ODs
    and, within an OD, in insertion order; their number is the sum of the
    passenger counts of these ODs. *)
Theorem Leg_passengers_concat (service : (Service.t R)) (leg : Leg.t) :
  Leg_passengers service leg = Leg_passengers_spec service leg /\
  length (Leg_passengers service leg) =
  list_sum (map (fun od => length (OD.passengers od)) (ods_crossing service leg)).
Proof.
  assert (E : Leg_passengers service leg = Leg_passengers_spec service leg).
  { unfold Leg_passengers. rewrite Leg_passengers_loop_concat. reflexivity. }
  split; [exact E|].
  rewrite E. unfold Leg_passengers_spec.
  now rewrite length_concat_sum, map_map.
Qed.

End LegPassengers.


(** ** The example of the script *)

(** C2: in the example of the script, the OD Paris-Lyon holds four
    passengers, its history is the three triplets of the script and its
    forecast, for the pricing and the demand matrix of the script, the
    eight triplets of the script. *)
Theorem example_history_forecast :
  exists od,
    Scenario.od_ply_lpd = Some od /\
    map (fun p => (Passenger.sale_day_x p, Passenger.price p)) (OD.passengers od) =
      [(-30, 20); (-25, 30); (-20, 40); (-20, 40)]%Z /\
    history od = [(-30, 1, 20); (-25, 2, 50); (-20, 4, 130)]%Z /\
    snd (forecast (Heap.make od Scenario.pricing Scenario.demand_matrix)) =
      Ok [(-7, 5, 150); (-6, 6, 170); (-5, 9, 260); (-4, 12, 360);
          (-3, 15, 480); (-2, 18, 620); (-1, 21, 770); (0, 21, 770)]%Z.
Proof.
  eexists. split; [reflexivity|]. repeat split; vm_compute; reflexivity.
Qed.

(** ** History *)

Section SortFacts.
Context {A : Type} (key : A -> Z).
Local Open Scope Z_scope.

Definition ascending : list A -> Prop :=
  StronglySorted (fun a b => key a <= key b).

Lemma insert_sorted_perm (x : A) (l : list A) :
  Permutation (x :: l) (insert_sorted key x l).
Proof.
  induction l as [|y l IH]; simpl; [apply Permutation_refl|].
  destruct (key x <=? key y); [apply Permutation_refl|].
  eapply perm_trans; [apply perm_swap|]. now apply perm_skip.
Qed.

Lemma sorted_perm (l : list A) : Permutation l (sorted key l).
Proof.
  induction l as [|x l IH]; simpl; [constructor|].
  eapply perm_trans; [|apply insert_sorted_perm]. now apply perm_skip.
Qed.

Lemma insert_sorted_ascending (x : A) (l : list A) :
  ascending l -> ascending (insert_sorted key x l).
Proof.
  induction 1 as [|y l Hl IH Hy]; simpl.
  - repeat constructor.
  - destruct (Z.leb_spec (key x) (key y)) as [Hxy|Hxy].
    + constructor; [now constructor|]. constructor; [exact Hxy|].
      eapply Forall_impl; [|exact Hy]. simpl. intros; lia.
    + constructor; [exact IH|].
      eapply Permutation_Forall; [apply insert_sorted_perm|].
      constructor; [lia|exact Hy].
Qed.

Lemma sorted_ascending (l : list A) : ascending (sorted key l).
Proof.
  induction l as [|x l IH]; simpl; [constructor|].
  now apply insert_sorted_ascending.
Qed.

Lemma groupby_head (y : A) (ys : list A) :
  exists g rest, groupby key (y :: ys) = (key y, y :: g) :: rest.
Proof.
  revert y. induction ys as [|z zs IH]; intros y.
  - exists [], []. reflexivity.
  - destruct (IH z) as (g & rest & E). cbn [groupby] in *. rewrite E.
    destruct (Z.eqb_spec (key y) (key z)) as [Eyz|_]; eauto.
    rewrite <- Eyz. eauto.
Qed.
End SortFacts.

Lemma Permutation_filter {A} (f : A -> bool) (l l' : list A) :
  Permutation l l' -> Permutation (filter f l) (filter f l').
Proof.
  induction 1 as [|x l l' _ IH|x y l|l l' l'' _ IH1 _ IH2]; simpl.
  - constructor.
  - destruct (f x); [now apply perm_skip|exact IH].
  - destruct (f x), (f y); try apply Permutation_refl. apply perm_swap.
  - eapply perm_trans; eassumption.
Qed.

Lemma StronglySorted_map {A B} (P : A -> A -> Prop) (Q : B -> B -> Prop)
    (f : A -> B) (l : list A) :
  (forall a b, P a b -> Q (f a) (f b)) ->
  StronglySorted P l -> StronglySorted Q (map f l).
Proof.
  intros Hf. induction 1 as [|a l _ IH Ha]; simpl; constructor; [exact IH|].
  apply Forall_forall. intros b Hb. apply in_map_iff in Hb.
  destruct Hb as (c & <- & Hc). rewrite Forall_forall in Ha. auto.
Qed.

Lemma StronglySorted_last (l : list Z) (dmax : Z) :
  StronglySorted Z.lt (l ++ [dmax]) ->
  forall d, In d (l ++ [dmax]) -> (d <= dmax)%Z.
Proof.
  induction l as [|a l IH]; simpl; intros Hs d Hd.
  - destruct Hd as [<-|[]]. lia.
  - apply StronglySorted_inv in Hs. destruct Hs as [Hs Ha].
    destruct Hd as [<-|Hd]; [|now apply IH].
    rewrite Forall_forall in Ha.
    assert (a < dmax)%Z; [|lia]. apply Ha, in_or_app. right. now left.
Qed.

(** ** Laws of numbers *)

(** Sums do not depend on the order of the terms: [int], [Fraction] and
    [Decimal] within its precision, not [float]. *)
Class NumExact (R : Type) `{Num R} := {
  num_add_comm : forall x y : R, num_add x y = num_add y x;
  num_add_assoc : forall x y z : R,
    num_add x (num_add y z) = num_add (num_add x y) z
}.
Arguments NumExact R {_}.

(** An order for which adding an amount that is not negative does not
    decrease a number. *)
Class NumOrder (R : Type) `{Num R} := {
  num_le : R -> R -> Prop;
  num_le_refl : forall x : R, num_le x x;
  num_le_trans : forall x y z : R, num_le x y -> num_le y z -> num_le x z;
  num_le_add : forall x y : R, num_le num_zero y -> num_le x (num_add x y)
}.
Arguments NumOrder R {_}.

Class MoneyOrder (R : Type) `{Num R} `{Money R} `{!NumOrder R} :=
  num_le_add_int : forall (x : R) (n : Z), (0 <= n)%Z -> num_le x (num_add_int x n).
Arguments MoneyOrder R {_ _ _}.

#[export] Instance NumExact_Z : NumExact Z.
Proof. split; [exact Z.add_comm|exact Z.add_assoc]. Qed.

Lemma Z_le_add (x y : Z) : (0 <= y -> x <= x + y)%Z.
Proof. lia. Qed.

#[export] Instance NumOrder_Z : NumOrder Z := {|
  num_le := Z.le;
  num_le_refl := Z.le_refl;
  num_le_trans := Z.le_trans;
  num_le_add := Z_le_add
|}.

#[export] Instance MoneyOrder_Z : MoneyOrder Z.
Proof.
  intros x n Hn. unfold num_add_int, Money_Z. simpl. lia.
Qed.

Section HistoryFacts.
Context {R : Type} {numR : Num R}.
Local Open Scope Z_scope.

Lemma sum_from_app (w : R) (l l' : list (Passenger.t R)) :
  sum_from w (l ++ l') = sum_from (sum_from w l) l'.
Proof. apply fold_left_app. Qed.

Lemma sum_from_cons (w : R) (p : Passenger.t R) (l : list (Passenger.t R)) :
  sum_from w (p :: l) = sum_from (num_add w (Passenger.price p)) l.
Proof. reflexivity. Qed.

(** with exact numbers a sum does not depend on the order *)
Lemma sum_from_perm {E : NumExact R} (l l' : list (Passenger.t R)) :
  Permutation l l' -> forall w, sum_from w l = sum_from w l'.
Proof.
  induction 1 as [|x l l' _ IH|x y l|l l' l'' _ IH1 _ IH2]; intros w.
  - reflexivity.
  - rewrite !sum_from_cons. apply IH.
  - rewrite !sum_from_cons. f_equal.
    rewrite <- !num_add_assoc. f_equal. apply num_add_comm.
  - now rewrite IH1.
Qed.

(** adding prices that are not negative does not decrease a number *)
Lemma sum_from_le {O : NumOrder R} (l : list (Passenger.t R)) :
  Forall (fun p => num_le num_zero (Passenger.price p)) l ->
  forall w, num_le w (sum_from w l).
Proof.
  induction 1 as [|p l Hp _ IH]; intros w.
  - apply num_le_refl.
  - rewrite sum_from_cons. eapply num_le_trans; [|apply IH].
    now apply num_le_add.
Qed.

Lemma insert_day_comm (a b : Z) (l : list Z) :
  insert_day a (insert_day b l) = insert_day b (insert_day a l).
Proof.
  induction l as [|d l IH]; simpl.
  - destruct (Z.ltb_spec a b), (Z.ltb_spec b a),
      (Z.eqb_spec a b), (Z.eqb_spec b a); try lia; congruence.
  - destruct (Z.ltb_spec b d), (Z.eqb_spec b d), (Z.ltb_spec a d),
      (Z.eqb_spec a d); simpl;
    repeat match goal with
    | |- context [Z.ltb ?x ?y] => destruct (Z.ltb_spec x y); try lia
    | |- context [Z.eqb ?x ?y] => destruct (Z.eqb_spec x y); try lia
    end; try congruence.
Qed.

Lemma sale_days_perm (l l' : list (Passenger.t R)) :
  Permutation l l' -> sale_days l = sale_days l'.
Proof.
  unfold sale_days.
  induction 1 as [|x l l' _ IH|x y l|l l' l'' _ IH1 _ IH2]; simpl.
  - reflexivity.
  - now rewrite IH.
  - apply insert_day_comm.
  - congruence.
Qed.

Lemma in_insert_day (d e : Z) (l : list Z) :
  In d (insert_day e l) <-> d = e \/ In d l.
Proof.
  induction l as [|x l IH]; simpl; [intuition|].
  destruct (Z.ltb_spec e x); simpl; [intuition|].
  destruct (Z.eqb_spec e x); simpl; [subst; intuition|].
  rewrite IH. intuition.
Qed.

Lemma in_sale_days (d : Z) (ps : list (Passenger.t R)) :
  In d (sale_days ps) <-> In d (map Passenger.sale_day_x ps).
Proof.
  unfold sale_days. induction ps as [|p ps IH]; simpl; [tauto|].
  rewrite in_insert_day, IH. intuition.
Qed.

Lemma insert_day_sorted (e : Z) (l : list Z) :
  StronglySorted Z.lt l -> StronglySorted Z.lt (insert_day e l).
Proof.
  induction 1 as [|x l Hl IH Hx]; simpl.
  - repeat constructor.
  - destruct (Z.ltb_spec e x).
    + constructor; [now constructor|]. constructor; [assumption|].
      eapply Forall_impl; [|exact Hx]. simpl. intros; lia.
    + destruct (Z.eqb_spec e x); [now constructor|].
      constructor; [exact IH|].
      apply Forall_forall. intros d Hd. apply in_insert_day in Hd.
      destruct Hd as [->|Hd]; [lia|].
      rewrite Forall_forall in Hx. now apply Hx.
Qed.

Lemma sale_days_sorted (ps : list (Passenger.t R)) :
  StronglySorted Z.lt (sale_days ps).
Proof.
  unfold sale_days. induction ps as [|p ps IH]; simpl; [constructor|].
  now apply insert_day_sorted.
Qed.

(** on an ascending list the days come out in the order of the list *)
Lemma sale_days_head (y : (Passenger.t R)) (ys : list (Passenger.t R)) :
  ascending Passenger.sale_day_x (y :: ys) -> exists ds, sale_days (y :: ys) = Passenger.sale_day_x y :: ds.
Proof.
  revert y. induction ys as [|z zs IH]; intros y Hasc.
  - exists []. reflexivity.
  - apply StronglySorted_inv in Hasc. destruct Hasc as [Hzs Hy].
    destruct (IH z Hzs) as (ds & E).
    change (sale_days (y :: z :: zs))
      with (insert_day (Passenger.sale_day_x y) (sale_days (z :: zs))).
    rewrite E. simpl. inversion Hy as [|? ? Hyz _]; subst.
    destruct (Z.ltb_spec (Passenger.sale_day_x y) (Passenger.sale_day_x z)); [eauto|].
    destruct (Z.eqb_spec (Passenger.sale_day_x y) (Passenger.sale_day_x z)) as [->|]; [eauto|lia].
Qed.

Lemma sale_days_cons (x : (Passenger.t R)) (xs : list (Passenger.t R)) :
  ascending Passenger.sale_day_x (x :: xs) ->
  sale_days (x :: xs) =
  match xs with
  | [] => [Passenger.sale_day_x x]
  | y :: _ => if Passenger.sale_day_x x =? Passenger.sale_day_x y then sale_days xs else Passenger.sale_day_x x :: sale_days xs
  end.
Proof.
  intros Hasc. destruct xs as [|y ys]; [reflexivity|].
  apply StronglySorted_inv in Hasc. destruct Hasc as [Hys Hx].
  destruct (sale_days_head Hys) as (ds & E).
  change (sale_days (x :: y :: ys))
    with (insert_day (Passenger.sale_day_x x) (sale_days (y :: ys))).
  rewrite E. simpl. inversion Hx as [|? ? Hxy _]; subst.
  destruct (Z.eqb_spec (Passenger.sale_day_x x) (Passenger.sale_day_x y)) as [Exy|Hne].
  - rewrite Exy, Z.ltb_irrefl. reflexivity.
  - destruct (Z.ltb_spec (Passenger.sale_day_x x) (Passenger.sale_day_x y)); [reflexivity|lia].
Qed.

Lemma groupby_cons {A} (key : A -> Z) (x : A) (l : list A) :
  groupby key (x :: l) =
  match groupby key l with
  | (k, g) :: groups =>
      if key x =? k then (k, x :: g) :: groups
      else (key x, [x]) :: (k, g) :: groups
  | [] => [(key x, [x])]
  end.
Proof. reflexivity. Qed.

Lemma _history_cons (x : Passenger.t R) (xs : list (Passenger.t R)) (hc : Z) (w : R) :
  _history_loop (groupby Passenger.sale_day_x (x :: xs)) hc w =
  match xs with
  | [] => [(Passenger.sale_day_x x, hc + 1, num_add w (Passenger.price x))]
  | y :: _ =>
      if Passenger.sale_day_x x =? Passenger.sale_day_x y then []
      else [(Passenger.sale_day_x x, hc + 1, num_add w (Passenger.price x))]
  end ++
  _history_loop (groupby Passenger.sale_day_x xs) (hc + 1)
                (num_add w (Passenger.price x)).
Proof.
  destruct xs as [|y ys]; [reflexivity|].
  destruct (groupby_head Passenger.sale_day_x y ys) as (g & rest & E).
  rewrite groupby_cons, E.
  destruct (Passenger.sale_day_x x =? Passenger.sale_day_x y); reflexivity.
Qed.

Lemma sold_by_cons_le (d : Z) (x : (Passenger.t R)) (xs : list (Passenger.t R)) :
  Passenger.sale_day_x x <= d -> sold_by d (x :: xs) = x :: sold_by d xs.
Proof.
  intros Hle. unfold sold_by. simpl.
  destruct (Z.leb_spec (Passenger.sale_day_x x) d); [reflexivity|lia].
Qed.

Lemma sold_by_none (d : Z) (xs : list (Passenger.t R)) :
  Forall (fun p => d < Passenger.sale_day_x p) xs -> sold_by d xs = [].
Proof.
  unfold sold_by. induction 1 as [|p xs Hp _ IH]; simpl; [reflexivity|].
  destruct (Z.leb_spec (Passenger.sale_day_x p) d); [lia|exact IH].
Qed.

Lemma sold_by_all (d : Z) (xs : list (Passenger.t R)) :
  Forall (fun p => Passenger.sale_day_x p <= d) xs -> sold_by d xs = xs.
Proof.
  unfold sold_by. induction 1 as [|p xs Hp _ IH]; simpl; [reflexivity|].
  destruct (Z.leb_spec (Passenger.sale_day_x p) d); [now rewrite IH|lia].
Qed.

Lemma triplet_eq (a b b' : Z) (c c' : R) :
  b = b' -> c = c' -> (a, b, c) = (a, b', c').
Proof. congruence. Qed.

(** on a list in sale-day order, the sales up to a day are a prefix of
    the sales up to a later day *)
Lemma sold_by_prefix (d d' : Z) (xs : list (Passenger.t R)) :
  ascending Passenger.sale_day_x xs -> d <= d' ->
  exists more, sold_by d' xs = sold_by d xs ++ more /\
               forall p, In p more -> In p xs.
Proof.
  intros Hasc Hle. induction Hasc as [|x xs Hxs IH Hx].
  - exists []. split; [reflexivity|intros p []].
  - destruct (Z.leb_spec (Passenger.sale_day_x x) d) as [Hxd|Hxd].
    + destruct IH as (more & E & Hin).
      exists more. rewrite !sold_by_cons_le by lia. rewrite E.
      split; [reflexivity|]. intros p Hp. right. now apply Hin.
    + exists (sold_by d' (x :: xs)). rewrite (sold_by_none (d := d)).
      * split; [reflexivity|]. intros p Hp. unfold sold_by in Hp.
        apply filter_In in Hp. apply Hp.
      * constructor; [lia|]. eapply Forall_impl; [|exact Hx].
        simpl. intros; lia.
Qed.

Lemma _history_loop_spec (xs : list (Passenger.t R)) :
  ascending Passenger.sale_day_x xs -> forall hc w,
  _history_loop (groupby Passenger.sale_day_x xs) hc w =
  map (fun d => (d, hc + Z.of_nat (length (sold_by d xs)),
                 sum_from w (sold_by d xs)))
      (sale_days xs).
Proof.
  induction 1 as [|x xs Hxs IH Hx]; intros hc w; [reflexivity|].
  rewrite _history_cons, IH, sale_days_cons by (now constructor).
  assert (Htail :
    map (fun d => (d, hc + 1 + Z.of_nat (length (sold_by d xs)),
                   sum_from (num_add w (Passenger.price x)) (sold_by d xs)))
        (sale_days xs) =
    map (fun d => (d, hc + Z.of_nat (length (sold_by d (x :: xs))),
                   sum_from w (sold_by d (x :: xs))))
        (sale_days xs)).
  { apply map_ext_in. intros d Hd. apply in_sale_days, in_map_iff in Hd.
    destruct Hd as (p & <- & Hp). rewrite Forall_forall in Hx.
    rewrite sold_by_cons_le by (now apply Hx).
    rewrite sum_from_cons. cbn [length]. apply triplet_eq; [lia|reflexivity]. }
  assert (Hhead : Forall (fun p => Passenger.sale_day_x x < Passenger.sale_day_x p) xs ->
    (Passenger.sale_day_x x, hc + 1, num_add w (Passenger.price x)) =
    (Passenger.sale_day_x x,
     hc + Z.of_nat (length (sold_by (Passenger.sale_day_x x) (x :: xs))),
     sum_from w (sold_by (Passenger.sale_day_x x) (x :: xs)))).
  { intros Hlt. rewrite sold_by_cons_le, sold_by_none by (auto; lia).
    apply triplet_eq; [simpl; lia|reflexivity]. }
  destruct xs as [|y ys].
  - cbn [app map _history_loop groupby].
    rewrite <- Hhead by constructor. reflexivity.
  - destruct (Z.eqb_spec (Passenger.sale_day_x x) (Passenger.sale_day_x y)) as [E|Hne].
    + simpl app. exact Htail.
    + cbn [app map]. rewrite Htail. f_equal. apply Hhead.
      apply StronglySorted_inv in Hxs. destruct Hxs as [_ Hy].
      inversion Hx as [|? ? Hxy _]; subst.
      constructor; [lia|]. eapply Forall_impl; [|exact Hy].
      simpl. intros; lia.
Qed.

Lemma history_refines (od : OD.t R) : history od = history_spec od.
Proof.
  unfold history, _history, history_spec, cumulative.
  rewrite _history_loop_spec by apply sorted_ascending.
  apply map_ext. intros d. apply triplet_eq; [lia|reflexivity].
Qed.

(** the days and the counts do not depend on the order of the passengers *)
Lemma cumulative_counts (ps ps' : list (Passenger.t R)) :
  Permutation ps ps' ->
  map (fun t => (t_day t, t_count t)) (cumulative ps) =
  map (fun d => (d, Z.of_nat (length (sold_by d ps')))) (sale_days ps').
Proof.
  intros Hperm. unfold cumulative. rewrite map_map.
  rewrite (sale_days_perm Hperm). apply map_ext. intros d.
  cbn [t_day t_count fst snd]. unfold sold_by.
  now rewrite (Permutation_length (Permutation_filter _ Hperm)).
Qed.

(** with exact numbers the revenues do not depend on it either *)
Lemma cumulative_perm {E : NumExact R} (ps ps' : list (Passenger.t R)) :
  Permutation ps ps' -> cumulative ps = cumulative ps'.
Proof.
  intros Hperm. unfold cumulative. rewrite (sale_days_perm Hperm).
  apply map_ext. intros d. unfold sold_by. apply triplet_eq.
  - now rewrite (Permutation_length (Permutation_filter _ Hperm)).
  - apply sum_from_perm. now apply Permutation_filter.
Qed.

Lemma sold_by_length_mono (d d' : Z) (ps : list (Passenger.t R)) :
  d <= d' ->
  Z.of_nat (length (sold_by d ps)) <= Z.of_nat (length (sold_by d' ps)).
Proof.
  intros Hle. unfold sold_by. induction ps as [|p ps IH]; simpl; [lia|].
  destruct (Z.leb_spec (Passenger.sale_day_x p) d),
           (Z.leb_spec (Passenger.sale_day_x p) d'); simpl; lia.
Qed.

Lemma cumulative_last (ps : list (Passenger.t R)) :
  ps <> [] ->
  exists pre d,
    cumulative ps = pre ++ [(d, Z.of_nat (length ps), sum_from num_zero ps)].
Proof.
  intros Hne. unfold cumulative.
  assert (Hdays : sale_days ps <> []).
  { destruct ps as [|p ps]; [congruence|].
    intros E. assert (Hin : In (Passenger.sale_day_x p) (sale_days (p :: ps))).
    { apply in_sale_days. now left. }
    rewrite E in Hin. destruct Hin. }
  destruct (exists_last Hdays) as (ds & dmax & E).
  pose proof (sale_days_sorted ps) as Hs. rewrite E in Hs.
  rewrite E, map_app. cbn [map].
  rewrite sold_by_all.
  - eauto.
  - apply Forall_forall. intros p Hp.
    apply (StronglySorted_last _ _ Hs). rewrite <- E.
    apply in_sale_days, in_map. exact Hp.
Qed.

(** revenues in sale-day order do not decrease when no price is negative *)
Lemma cumulative_revenue_mono {O : NumOrder R} (xs : list (Passenger.t R)) :
  ascending Passenger.sale_day_x xs ->
  Forall (fun p => num_le num_zero (Passenger.price p)) xs ->
  StronglySorted num_le (map t_revenue (cumulative xs)).
Proof.
  intros Hasc Hpos. unfold cumulative. rewrite map_map. cbn [t_revenue snd].
  apply StronglySorted_map with (P := Z.lt); [|apply sale_days_sorted].
  intros a b Hab.
  destruct (@sold_by_prefix a b xs Hasc ltac:(lia)) as (more & E & Hin).
  rewrite E, sum_from_app. apply sum_from_le.
  apply Forall_forall. intros p Hp. rewrite Forall_forall in Hpos.
  now apply Hpos, Hin.
Qed.

End HistoryFacts.

Set Warnings "-inexact-float".

(** The revenue of the history goes down at a sale with a negative price.
    With [float] prices the last revenue, which adds the prices in the
    order of the sale days, need not be the sum of the prices in the order
    of the passenger list: 0.1 + 0.2 + 0.3 is not 0.3 + 0.2 + 0.1. *)
Lemma history_revenue_decreases :
  (let od := OD.make 0 1 [Passenger.make 0 1 (-30) 20%Z;
                          Passenger.make 0 1 (-25) (-5)%Z] in
   history od = [(-30, 1, 20); (-25, 2, 15)]%Z /\
   ~ StronglySorted Z.le (map t_revenue (history od))) /\
  (let od := OD.make 0 1 [Passenger.make 0 1 (-1) 0.3%float;
                          Passenger.make 0 1 (-2) 0.2%float;
                          Passenger.make 0 1 (-3) 0.1%float] in
   map (fun t => (t_day t, t_count t)) (history od) =
     [(-3, 1); (-2, 2); (-1, 3)]%Z /\
   last (map t_revenue (history od)) 0%float <> sum_prices (OD.passengers od)).
Proof.
  split; split.
  - reflexivity.
  - intros Hs. vm_compute in Hs.
    apply StronglySorted_inv in Hs. destruct Hs as [_ Hs].
    inversion Hs as [|? ? Hle _]; subst. vm_compute in Hle. now apply Hle.
  - reflexivity.
  - intros E. apply (f_equal Prim2SF) in E. vm_compute in E. discriminate E.
Qed.

(** C3, amended: [history] is the reference computation: the passengers
    sorted by sale day, then one triplet per distinct sale day with the
    cumulative count and the prices added in that order.  Its days are the
    distinct sale days, strictly ascending; its counts are the numbers of
    passengers sold up to each day and do not decrease; when the OD has
    passengers the last triplet has the count of all passengers and the
    prices of all passengers added in sale-day order.  Where adding an
    amount that is not negative does not decrease a number, the revenues
    do not decrease when no passenger has a negative price.  Where sums do
    not depend on the order of the terms, the revenues are the sums of the
    prices in any order and the last one is the sum of all prices. *)
Theorem history_cumulative {R : Type} {numR : Num R} (od : OD.t R) :
  let ps := OD.passengers od in
  let by_day := sorted Passenger.sale_day_x ps in
  history od = history_spec od /\
  map t_day (history od) = sale_days ps /\
  (forall d, In d (sale_days ps) <->
             exists p, In p ps /\ Passenger.sale_day_x p = d) /\
  StronglySorted Z.lt (map t_day (history od)) /\
  map t_count (history od) =
    map (fun d => Z.of_nat (length (sold_by d ps))) (sale_days ps) /\
  StronglySorted Z.le (map t_count (history od)) /\
  (ps <> [] ->
   exists pre d,
     history od = pre ++ [(d, Z.of_nat (length ps), sum_prices by_day)]) /\
  (forall O : NumOrder R,
     Forall (fun p => num_le num_zero (Passenger.price p)) ps ->
     StronglySorted num_le (map t_revenue (history od))) /\
  (forall E : NumExact R,
     history od = cumulative ps /\ sum_prices by_day = sum_prices ps).
Proof.
  intros ps by_day. rewrite history_refines. unfold history_spec. fold ps by_day.
  assert (Hperm : Permutation ps by_day) by apply sorted_perm.
  assert (Hasc : ascending Passenger.sale_day_x by_day) by apply sorted_ascending.
  clearbody by_day.
  pose proof (cumulative_counts (Permutation_sym Hperm)) as Hdc.
  assert (Hdays : map t_day (cumulative by_day) = sale_days ps).
  { apply (f_equal (map fst)) in Hdc. rewrite !map_map in Hdc.
    cbn [fst] in Hdc. rewrite map_id in Hdc. exact Hdc. }
  assert (Hcounts : map t_count (cumulative by_day) =
            map (fun d => Z.of_nat (length (sold_by d ps))) (sale_days ps)).
  { apply (f_equal (map snd)) in Hdc. rewrite !map_map in Hdc. exact Hdc. }
  split; [reflexivity|]. split; [exact Hdays|].
  split; [|split; [|split; [|split; [|split; [|split]]]]].
  - intros d. rewrite in_sale_days, in_map_iff.
    split; intros (p & H1 & H2); exists p; split; assumption.
  - rewrite Hdays. apply sale_days_sorted.
  - exact Hcounts.
  - rewrite Hcounts.
    apply StronglySorted_map with (P := Z.lt); [|apply sale_days_sorted].
    intros a b Hab. apply sold_by_length_mono. lia.
  - intros Hne.
    destruct (@cumulative_last R numR by_day) as (pre & d & E).
    { intros E. subst by_day. apply Hne, Permutation_nil.
      now apply Permutation_sym. }
    exists pre, d. rewrite E.
    now rewrite <- (Permutation_length Hperm).
  - intros O Hpos. apply cumulative_revenue_mono; [exact Hasc|].
    eapply Permutation_Forall; [exact Hperm|exact Hpos].
  - intros E. split.
    + apply cumulative_perm. now apply Permutation_sym.
    + apply sum_from_perm. now apply Permutation_sym.
Qed.

Lemma history_cumulative_witness :
  StronglySorted Z.le
    (map t_revenue (history (OD.make 0 1 [Passenger.make 0 1 (-30) 20%Z;
                                          Passenger.make 0 1 (-25) 30%Z]))) /\
  exists pre d,
    history (OD.make 0 1 [Passenger.make 0 1 (-30) 20%Z;
                          Passenger.make 0 1 (-25) 30%Z]) =
    pre ++ [(d, 2, 50)]%Z.
Proof.
  destruct (history_cumulative (OD.make 0 1 [Passenger.make 0 1 (-30) 20%Z;
                                             Passenger.make 0 1 (-25) 30%Z]))
    as (_ & _ & _ & _ & _ & _ & Hlast & Hrev & _).
  split.
  - apply (Hrev NumOrder_Z). repeat constructor; simpl; lia.
  - apply Hlast. discriminate.
Defined.

(** ** Forecast: the reference scan *)

Section ScanFacts.
Context {R : Type} {numR : Num R} {moneyR : Money R}.
Local Open Scope Z_scope.

Lemma depleted_refl (p : dict Z Z) : depleted p p.
Proof. induction p; constructor; auto. split; [reflexivity|lia]. Qed.

Lemma depleted_trans (p q r : dict Z Z) :
  depleted p q -> depleted q r -> depleted p r.
Proof.
  intros Hpq. revert r. induction Hpq as [|a b p q [Hk Hv] _ IH]; intros r Hqr.
  - inversion Hqr. constructor.
  - inversion Hqr as [|? c ? r' [Hk' Hv'] Hqr']; subst.
    constructor; [split; [congruence|lia]|apply IH; exact Hqr'].
Qed.

Lemma depleted_keys (p q : dict Z Z) : depleted p q -> dict_keys p = dict_keys q.
Proof.
  induction 1 as [|a b p q [Hk _] _ IH]; simpl; [reflexivity|].
  now rewrite Hk, IH.
Qed.

(** a row that is the pricing object asks for less when less is left *)
Lemma row_demand_mono (demand : row) (p c c' : Z) :
  c <= c' -> row_demand demand p c <= row_demand demand p c'.
Proof. intros Hc. destruct demand; simpl; lia. Qed.

(** what one scan does to the inventory, the day's sales and the money *)
Lemma scan_spec_facts (demand : row) (levels : dict Z Z) :
  forall sold (money : R),
  let '(levels', sold', money') := scan_spec demand levels sold money in
  depleted levels' levels /\
  sold <= sold' /\
  inventory levels - inventory levels' = sold' - sold /\
  (in_stock levels -> in_stock levels').
Proof.
  induction levels as [|[p count] rest IH]; intros sold money; simpl.
  - repeat split; try lia; [constructor|auto].
  - destruct (Z.leb_spec (Z.min (row_demand demand p count - sold) count) 0)
      as [Hskip|Hfill].
    + specialize (IH sold money).
      destruct (scan_spec demand rest sold money) as [[rest' sold'] money'].
      destruct IH as (Hdep & Hle & Hinv & Hstock).
      unfold inventory in *. simpl. repeat split; try lia.
      * constructor; [split; [reflexivity|simpl; lia]|exact Hdep].
      * intros Hs. inversion Hs as [|? ? Hc Hr]; subst.
        constructor; [exact Hc|apply Hstock; exact Hr].
    + set (fill := Z.min (row_demand demand p count - sold) count) in *.
      specialize (IH (sold + fill) (num_add_int money (p * fill))).
      destruct (scan_spec demand rest (sold + fill) (num_add_int money (p * fill)))
        as [[rest' sold'] money'].
      destruct IH as (Hdep & Hle & Hinv & Hstock).
      unfold inventory in *. simpl. repeat split; try lia.
      * constructor; [split; [reflexivity|simpl; lia]|exact Hdep].
      * intros Hs. inversion Hs as [|? ? Hc Hr]; subst. simpl in Hc.
        constructor; [simpl; lia|apply Hstock; exact Hr].
Qed.

(** after a level the day's sales are [max sold (min demand (sold + count))] *)
Lemma scan_spec_sold_cons (demand : row) (k c : Z) (rest : dict Z Z)
    (sold : Z) (money : R) :
  exists money',
    snd (fst (scan_spec demand ((k, c) :: rest) sold money)) =
    snd (fst (scan_spec demand rest
                (Z.max sold (Z.min (row_demand demand k c) (sold + c))) money')).
Proof.
  cbn [scan_spec].
  destruct (Z.leb_spec (Z.min (row_demand demand k c - sold) c) 0) as [Hskip|Hfill].
  - exists money.
    replace (Z.max sold (Z.min (row_demand demand k c) (sold + c))) with sold by lia.
    destruct (scan_spec demand rest sold money) as [[? ?] ?]. reflexivity.
  - exists (num_add_int money (k * Z.min (row_demand demand k c - sold) c)).
    replace (Z.max sold (Z.min (row_demand demand k c) (sold + c)))
      with (sold + Z.min (row_demand demand k c - sold) c) by lia.
    destruct (scan_spec demand rest _ _) as [[? ?] ?]. reflexivity.
Qed.

(** the day's sales grow with the inventory and with the sales so far *)
Lemma scan_spec_mono (demand : row) (q p : dict Z Z) :
  depleted q p -> forall sq sp (mq mp : R), sq <= sp ->
  snd (fst (scan_spec demand q sq mq)) <= snd (fst (scan_spec demand p sp mp)).
Proof.
  induction 1 as [|[k cq] [k' cp] q0 p0 [Hk Hv] _ IH]; intros sq sp mq mp Hs.
  - simpl. exact Hs.
  - simpl in Hk, Hv. subst k'.
    destruct (scan_spec_sold_cons demand k cq q0 sq mq) as (mq' & ->).
    destruct (scan_spec_sold_cons demand k cp p0 sp mp) as (mp' & ->).
    pose proof (row_demand_mono demand k Hv).
    apply IH. lia.
Qed.

Lemma last_cons_default {A} (l : list A) (a d : A) :
  last (a :: l) d = last l a.
Proof.
  revert a d. induction l as [|b l IH]; intros a d; [reflexivity|].
  change (last (a :: b :: l) d) with (last (b :: l) d).
  now rewrite (IH b d), (IH b a).
Qed.

Lemma final_count_cons (before : Z) (t : triplet R) (out : list (triplet R)) :
  final_count before (t :: out) = final_count (t_count t) out.
Proof. unfold final_count. cbn [map]. apply last_cons_default. Qed.

Lemma days_spec_facts (days : dict Z row) :
  forall pricing head_count (money : R),
  let '(pricing', out) := days_spec days pricing head_count money in
  depleted pricing' pricing /\
  map t_day out = dict_keys days /\
  inventory pricing - inventory pricing' = final_count head_count out - head_count /\
  (in_stock pricing -> in_stock pricing').
Proof.
  induction days as [|[day demand] rest IH]; intros pricing head_count money; simpl.
  - repeat split; auto; [apply depleted_refl|unfold final_count; simpl; lia].
  - pose proof (scan_spec_facts demand pricing 0 money) as Hscan.
    destruct (scan_spec demand pricing 0 money) as [[pricing1 sold] money1].
    destruct Hscan as (Hdep1 & Hle1 & Hinv1 & Hstock1).
    specialize (IH pricing1 (head_count + sold) money1).
    destruct (days_spec rest pricing1 (head_count + sold) money1) as [pricing2 out].
    destruct IH as (Hdep2 & Hdays & Hinv2 & Hstock2).
    split; [eapply depleted_trans; eassumption|].
    split; [simpl; now rewrite Hdays|].
    split; [|auto].
    rewrite final_count_cons. cbn [t_count fst snd]. lia.
Qed.

Lemma days_spec_second_run (days : dict Z row) :
  forall p q hp (mp : R) hq (mq : R),
  depleted q (fst (days_spec days p hp mp)) ->
  Forall2 Z.le (sold_per_day hq (snd (days_spec days q hq mq)))
               (sold_per_day hp (snd (days_spec days p hp mp))).
Proof.
  induction days as [|[day demand] rest IH]; intros p q hp mp hq mq Hq; simpl.
  - constructor.
  - simpl in Hq.
    pose proof (scan_spec_facts demand p 0 mp) as Hp1.
    pose proof (scan_spec_facts demand q 0 mq) as Hq1.
    pose proof (fun H => @scan_spec_mono demand q p H 0 0 mq mp (Z.le_refl 0))
      as Hmono.
    destruct (scan_spec demand p 0 mp) as [[p1 sp] mp1].
    destruct (scan_spec demand q 0 mq) as [[q1 sq] mq1].
    destruct Hp1 as (Hdp & _). destruct Hq1 as (Hdq & _).
    pose proof (days_spec_facts rest p1 (hp + sp) mp1) as Hp2.
    specialize (IH p1 q1 (hp + sp) mp1 (hq + sq) mq1).
    destruct (days_spec rest p1 (hp + sp) mp1) as [p2 outp].
    destruct (days_spec rest q1 (hq + sq) mq1) as [q2 outq].
    destruct Hp2 as (Hdp2 & _). simpl in *.
    assert (Hqp : depleted q p).
    { eapply depleted_trans; [exact Hq|].
      eapply depleted_trans; eassumption. }
    constructor.
    + specialize (Hmono Hqp). simpl in Hmono. lia.
    + apply IH. eapply depleted_trans; eassumption.
Qed.
End ScanFacts.

(** ** Forecast: the loops of the method against the reference scan *)

Section ForecastRefinement.
Context {R : Type} {numR : Num R} {moneyR : Money R}.
Local Open Scope Z_scope.

Lemma row_covers_incl (demand : row) (keys keys' : list Z) :
  (forall p, In p keys' -> In p keys) ->
  row_covers demand keys -> row_covers demand keys'.
Proof. destruct demand; simpl; auto. Qed.

(** what a row gives at the level the iterator has reached *)
Lemma row_get_level (demand : row) (pre rest : dict Z Z) (p c : Z) :
  ~ In p (dict_keys pre) ->
  row_covers demand (dict_keys ((p, c) :: rest)) ->
  row_get (pre ++ (p, c) :: rest) demand p = Some (row_demand demand p c).
Proof.
  intros Hpre Hcov. destruct demand as [d|]; simpl in *.
  - unfold demand_at. destruct (dict_get d p) eqn:E; [reflexivity|].
    exfalso. apply (Hcov p); [now left|exact E].
  - now apply dict_get_middle.
Qed.

(** one price level, reached by the iterator at the entry [(p, c)] *)
Lemma forecast_price_run (demand : row) (p c d sold : Z) (money : R)
    (pre rest : dict Z Z) (h : Heap.t R) :
  Heap.pricing h = pre ++ (p, c) :: rest ->
  ~ In p (dict_keys pre) ->
  row_get (Heap.pricing h) demand p = Some d ->
  forecast_price demand p c (sold, money) h =
  if Z.min (d - sold) c <=? 0 then (h, Ok (sold, money))
  else (Heap.make (Heap.self h)
                  (pre ++ (p, c - Z.min (d - sold) c) :: rest)
                  (Heap.demand_matrix h),
        Ok (sold + Z.min (d - sold) c,
            num_add_int money (p * Z.min (d - sold) c))).
Proof.
  intros Hp Hpre Hd. unfold forecast_price, demand_getitem, bind.
  rewrite Hd. cbn [subscript ret].
  destruct (Z.min (d - sold) c <=? 0); [reflexivity|].
  unfold pricing_getitem. rewrite Hp, dict_get_middle by exact Hpre.
  cbn [subscript ret]. unfold pricing_setitem, modify.
  rewrite Hp, dict_set_middle by exact Hpre. reflexivity.
Qed.

Lemma forecast_prices_run (demand : row) :
  forall rest pre n sold (money : R) (h : Heap.t R),
  Heap.pricing h = pre ++ rest ->
  NoDup (dict_keys (pre ++ rest)) ->
  row_covers demand (dict_keys rest) ->
  (length rest <= n)%nat ->
  for_items_from Heap.pricing (forecast_price demand) n (length pre) (sold, money) h =
  (Heap.make (Heap.self h)
             (pre ++ fst (fst (scan_spec demand rest sold money)))
             (Heap.demand_matrix h),
   Ok (snd (fst (scan_spec demand rest sold money)),
       snd (scan_spec demand rest sold money))).
Proof.
  induction rest as [|[p c] rest IH]; intros pre n sold money h Hp Hnd Hcov Hlen.
  - rewrite app_nil_r in Hp. cbn [scan_spec fst snd]. rewrite app_nil_r.
    destruct n as [|n]; cbn [for_items_from].
    + unfold ret. destruct h; simpl in *; subst; reflexivity.
    + rewrite Hp, (proj2 (nth_error_None pre (length pre)) (le_n _)).
      destruct h; simpl in *; subst; reflexivity.
  - destruct n as [|n]; [simpl in Hlen; lia|]. cbn [for_items_from].
    rewrite Hp, nth_error_app2, Nat.sub_diag by lia. cbn [nth_error].
    assert (Hpre : ~ In p (dict_keys pre)).
    { unfold dict_keys in Hnd. rewrite map_app in Hnd. cbn [map fst] in Hnd.
      apply NoDup_remove_2 in Hnd. intros Hin. apply Hnd, in_or_app. now left. }
    assert (Hd : row_get (Heap.pricing h) demand p = Some (row_demand demand p c)).
    { rewrite Hp. now apply row_get_level. }
    assert (Hcov' : row_covers demand (dict_keys rest)).
    { eapply row_covers_incl; [|exact Hcov]. intros q Hq. now right. }
    unfold bind.
    rewrite (@forecast_price_run demand p c _ sold money pre rest h Hp Hpre Hd).
    cbn [scan_spec].
    destruct (Z.min (row_demand demand p c - sold) c <=? 0).
    + replace (S (length pre)) with (length (pre ++ [(p, c)]))
        by (rewrite length_app; simpl; lia).
      rewrite IH.
      * destruct (scan_spec demand rest sold money) as [[rest' sold'] money'].
        cbn [fst snd]. now rewrite <- app_assoc.
      * now rewrite <- app_assoc.
      * now rewrite <- app_assoc.
      * exact Hcov'.
      * simpl in Hlen. lia.
    + set (fill := Z.min (row_demand demand p c - sold) c).
      replace (S (length pre)) with (length (pre ++ [(p, c - fill)]))
        by (rewrite length_app; simpl; lia).
      rewrite IH.
      * cbn [Heap.self Heap.demand_matrix].
        destruct (scan_spec demand rest (sold + fill) (num_add_int money (p * fill)))
          as [[rest' sold'] money'].
        cbn [fst snd]. now rewrite <- app_assoc.
      * cbn [Heap.pricing]. now rewrite <- app_assoc.
      * rewrite <- app_assoc. unfold dict_keys in *.
        rewrite map_app in *. exact Hnd.
      * exact Hcov'.
      * simpl in Hlen. lia.
Qed.

(** one day *)
Lemma forecast_day_run (day : Z) (demand : row) (head_count : Z) (money : R)
    (yielded : list (triplet R)) (h : Heap.t R) :
  NoDup (dict_keys (Heap.pricing h)) ->
  row_covers demand (dict_keys (Heap.pricing h)) ->
  forecast_day day demand (head_count, money, yielded) h =
  let '(pricing', sold, money') := scan_spec demand (Heap.pricing h) 0 money in
  (Heap.make (Heap.self h) pricing' (Heap.demand_matrix h),
   Ok (head_count + sold, money',
       yielded ++ [(day, head_count + sold, money')])).
Proof.
  intros Hnd Hcov. unfold forecast_day, for_items, bind.
  pose proof (@forecast_prices_run demand (Heap.pricing h) [] _ 0 money h
                eq_refl Hnd Hcov (le_n _)) as Hrun.
  cbn [length app] in Hrun. rewrite Hrun.
  destruct (scan_spec demand (Heap.pricing h) 0 money) as [[pricing' sold] money'].
  reflexivity.
Qed.

Lemma forecast_days_run :
  forall rest pre n head_count (money : R) yielded (h : Heap.t R),
  Heap.demand_matrix h = pre ++ rest ->
  NoDup (dict_keys (Heap.pricing h)) ->
  (forall day demand, In (day, demand) rest ->
   row_covers demand (dict_keys (Heap.pricing h))) ->
  (length rest <= n)%nat ->
  exists head_count' money',
    for_items_from Heap.demand_matrix forecast_day n (length pre)
                   (head_count, money, yielded) h =
    (Heap.make (Heap.self h)
               (fst (days_spec rest (Heap.pricing h) head_count money))
               (Heap.demand_matrix h),
     Ok (head_count', money',
         yielded ++ snd (days_spec rest (Heap.pricing h) head_count money))).
Proof.
  induction rest as [|[day demand] rest IH];
    intros pre n head_count money yielded h Hdm Hnd Hcov Hlen.
  - exists head_count, money. rewrite app_nil_r in Hdm.
    cbn [days_spec fst snd]. rewrite app_nil_r.
    destruct n as [|n]; cbn [for_items_from].
    + unfold ret. destruct h; reflexivity.
    + rewrite Hdm, (proj2 (nth_error_None pre (length pre)) (le_n _)).
      destruct h; simpl in *; subst; reflexivity.
  - destruct n as [|n]; [simpl in Hlen; lia|]. cbn [for_items_from].
    rewrite Hdm, nth_error_app2, Nat.sub_diag by lia. cbn [nth_error].
    unfold bind. rewrite forecast_day_run;
      [|exact Hnd|apply (Hcov day demand); now left].
    cbn [days_spec].
    pose proof (scan_spec_facts demand (Heap.pricing h) 0 money) as Hscan.
    destruct (scan_spec demand (Heap.pricing h) 0 money) as [[pricing1 sold] money1].
    destruct Hscan as (Hdep & _). apply depleted_keys in Hdep.
    replace (S (length pre)) with (length (pre ++ [(day, demand)]))
      by (rewrite length_app; simpl; lia).
    edestruct (IH (pre ++ [(day, demand)]) n (head_count + sold) money1
                  (yielded ++ [(day, head_count + sold, money1)])
                  (Heap.make (Heap.self h) pricing1 (Heap.demand_matrix h)))
      as (hc' & m' & Hrun).
    + cbn [Heap.demand_matrix]. now rewrite <- app_assoc.
    + cbn [Heap.pricing]. now rewrite Hdep.
    + cbn [Heap.pricing]. rewrite Hdep. intros d0 dem0 Hin.
      apply (Hcov d0 dem0). now right.
    + simpl in Hlen. lia.
    + exists hc', m'. rewrite Hrun. cbn [Heap.self Heap.pricing Heap.demand_matrix].
      destruct (days_spec rest pricing1 (head_count + sold) money1) as [pricing2 out].
      cbn [fst snd]. rewrite <- app_assoc, <- Hdm. reflexivity.
Qed.

(** the whole method against [forecast_spec] *)
Lemma forecast_run (h : Heap.t R) :
  NoDup (dict_keys (Heap.pricing h)) ->
  covers (Heap.demand_matrix h) (Heap.pricing h) ->
  forecast h =
  (Heap.make (Heap.self h)
             (fst (forecast_spec (Heap.self h) (Heap.pricing h) (Heap.demand_matrix h)))
             (Heap.demand_matrix h),
   Ok (snd (forecast_spec (Heap.self h) (Heap.pricing h) (Heap.demand_matrix h)))).
Proof.
  intros Hnd Hcov. unfold forecast, gets, for_items, bind.
  destruct (@forecast_days_run (Heap.demand_matrix h) [] _
              (Z.of_nat (length (OD.passengers (Heap.self h))))
              (sum_prices (OD.passengers (Heap.self h))) [] h
              eq_refl Hnd Hcov (le_n _)) as (hc' & m' & Hrun).
  cbn [length app] in Hrun. rewrite Hrun. reflexivity.
Qed.
End ForecastRefinement.

(** ** Forecast: the claims *)

Lemma coversb_covers (demand_matrix : dict Z row) (pricing : dict Z Z) :
  coversb demand_matrix pricing = true -> covers demand_matrix pricing.
Proof.
  unfold coversb, covers. rewrite forallb_forall.
  intros H day demand Hin. specialize (H _ Hin). cbn [snd] in H.
  destruct demand as [d|]; simpl; [|exact I].
  intros p Hp. rewrite forallb_forall in H. specialize (H p Hp).
  unfold has_key in H. destruct (dict_get d p); [discriminate|discriminate].
Qed.

Lemma example_pricing_nodup : NoDup (dict_keys Scenario.pricing).
Proof. repeat constructor; simpl; intuition discriminate. Qed.

Lemma shared_pricing_nodup : NoDup (dict_keys Shared.pricing).
Proof. repeat constructor; simpl; intuition discriminate. Qed.

(** the rows that are not the pricing object read the same whatever the
    pricing holds *)
Lemma rows_seen_apart (demand_matrix : dict Z row) (p q : dict Z Z) :
  apart demand_matrix -> rows_seen p demand_matrix = rows_seen q demand_matrix.
Proof.
  unfold apart, rows_seen. induction 1 as [|[day r] dm Hr _ IH]; [reflexivity|].
  cbn [map fst snd] in *. rewrite IH. destruct r; [reflexivity|congruence].
Qed.

(** a row reads as before, or it is the pricing object *)
Lemma rows_seen_frame (demand_matrix : dict Z row) (p q : dict Z Z) :
  Forall2 (fun after before =>
             fst after = fst before /\
             (snd after = snd before \/ (snd after = p /\ snd before = q)))
          (rows_seen p demand_matrix) (rows_seen q demand_matrix).
Proof.
  unfold rows_seen. induction demand_matrix as [|[day r] dm IH]; [constructor|].
  cbn [map fst snd]. constructor; [|exact IH].
  split; [reflexivity|]. destruct r; auto.
Qed.



(** When a row of the demand matrix is the pricing object, the demand
    matrix does not read after [forecast] as it read before. *)
Lemma forecast_changes_shared_row :
  let h' := fst (forecast Shared.heap) in
  snd (forecast Shared.heap) = Ok [(-2, 3, 50); (-1, 6, 90)]%Z /\
  rows_seen (Heap.pricing Shared.heap) (Heap.demand_matrix Shared.heap) =
    [(-2, [(10, 1); (20, 3)]); (-1, [(10, 3); (20, 5)])]%Z /\
  rows_seen (Heap.pricing h') (Heap.demand_matrix h') =
    [(-2, [(10, 1); (20, 3)]); (-1, [(10, 0); (20, 2)])]%Z /\
  rows_seen (Heap.pricing h') (Heap.demand_matrix h') <>
  rows_seen (Heap.pricing Shared.heap) (Heap.demand_matrix Shared.heap).
Proof.
  repeat split; try reflexivity. vm_compute. discriminate.
Qed.

(** C7, amended: under the same conditions, consuming [forecast] yields one
    triplet per entry of the demand matrix, in its order; the OD is left as
    it was; the demand matrix holds the same rows, and each row reads as
    before unless it is the pricing object, so that the whole matrix reads
    as before when no row is; the pricing keeps its levels, no level gains
    inventory, and the inventory lost over all levels is the number of
    seats sold, the last emitted count less the OD's passenger count. *)
Theorem forecast_depletes_pricing_only {R : Type} {numR : Num R}
    {moneyR : Money R} (h : Heap.t R) :
  NoDup (dict_keys (Heap.pricing h)) ->
  covers (Heap.demand_matrix h) (Heap.pricing h) ->
  exists h' out,
    forecast h = (h', Ok out) /\
    length out = length (Heap.demand_matrix h) /\
    map t_day out = dict_keys (Heap.demand_matrix h) /\
    Heap.self h' = Heap.self h /\
    Heap.demand_matrix h' = Heap.demand_matrix h /\
    Forall2 (fun after before =>
               fst after = fst before /\
               (snd after = snd before \/
                (snd after = Heap.pricing h' /\ snd before = Heap.pricing h)))
            (rows_seen (Heap.pricing h') (Heap.demand_matrix h'))
            (rows_seen (Heap.pricing h) (Heap.demand_matrix h)) /\
    (apart (Heap.demand_matrix h) ->
     rows_seen (Heap.pricing h') (Heap.demand_matrix h') =
     rows_seen (Heap.pricing h) (Heap.demand_matrix h)) /\
    depleted (Heap.pricing h') (Heap.pricing h) /\
    (inventory (Heap.pricing h) - inventory (Heap.pricing h') =
     final_count (Z.of_nat (length (OD.passengers (Heap.self h)))) out -
     Z.of_nat (length (OD.passengers (Heap.self h))))%Z.
Proof.
  intros Hnd Hcov. eexists. eexists. split; [apply forecast_run; assumption|].
  cbn [Heap.self Heap.pricing Heap.demand_matrix]. unfold forecast_spec.
  pose proof (days_spec_facts (Heap.demand_matrix h) (Heap.pricing h)
                (Z.of_nat (length (OD.passengers (Heap.self h))))
                (sum_prices (OD.passengers (Heap.self h)))) as Hfacts.
  destruct (days_spec _ _ _ _) as [pricing' out].
  destruct Hfacts as (Hdep & Hdays & Hinv & _). cbn [fst snd].
  repeat split; try assumption.
  - rewrite <- (length_map (@t_day R)), Hdays. unfold dict_keys. apply length_map.
  - apply rows_seen_frame.
  - intros Hapart. now apply rows_seen_apart.
Qed.

Lemma forecast_depletes_pricing_only_witness :
  exists h' out,
    forecast Scenario.heap = (h', Ok out) /\
    length out = 8 /\
    Heap.self h' = Scenario.od /\
    rows_seen (Heap.pricing h') (Heap.demand_matrix h') =
    rows_seen Scenario.pricing Scenario.demand_matrix /\
    (inventory Scenario.pricing - inventory (Heap.pricing h') =
     final_count 4 out - 4)%Z.
Proof.
  destruct (forecast_depletes_pricing_only Scenario.heap) as
    (h' & out & Hrun & Hlen & _ & Hself & _ & _ & Hrows & _ & Hinv).
  - exact example_pricing_nodup.
  - apply coversb_covers. reflexivity.
  - exists h', out. repeat split; try assumption.
    apply Hrows. repeat constructor; discriminate.
Defined.

(** C8: under the same conditions, a second [forecast] on the pricing left
    by a first one sells, on every day of the demand matrix, at most the
    seats the first one sold on that day. *)
Theorem forecast_twice_sells_less {R : Type} {numR : Num R} {moneyR : Money R}
    (h : Heap.t R) :
  NoDup (dict_keys (Heap.pricing h)) ->
  covers (Heap.demand_matrix h) (Heap.pricing h) ->
  let before := Z.of_nat (length (OD.passengers (Heap.self h))) in
  exists h1 out1 h2 out2,
    forecast h = (h1, Ok out1) /\
    forecast h1 = (h2, Ok out2) /\
    length out1 = length (Heap.demand_matrix h) /\
    Forall2 Z.le (sold_per_day before out2) (sold_per_day before out1).
Proof.
  intros Hnd Hcov before.
  pose proof (@forecast_run R numR moneyR h Hnd Hcov) as Hrun1.
  unfold forecast_spec in Hrun1. fold before in Hrun1.
  pose proof (days_spec_facts (Heap.demand_matrix h) (Heap.pricing h) before
                (sum_prices (OD.passengers (Heap.self h)))) as Hfacts.
  pose proof (@days_spec_second_run R moneyR (Heap.demand_matrix h) (Heap.pricing h)
                (fst (days_spec (Heap.demand_matrix h) (Heap.pricing h) before
                        (sum_prices (OD.passengers (Heap.self h)))))
                before (sum_prices (OD.passengers (Heap.self h)))
                before (sum_prices (OD.passengers (Heap.self h)))
                (depleted_refl _)) as Hsecond.
  destruct (days_spec (Heap.demand_matrix h) (Heap.pricing h) before
              (sum_prices (OD.passengers (Heap.self h)))) as [pricing1 out1].
  destruct Hfacts as (Hdep & Hdays & _). cbn [fst snd] in *.
  set (h1 := Heap.make (Heap.self h) pricing1 (Heap.demand_matrix h)) in *.
  assert (Hrun2 : forecast h1 =
    (Heap.make (Heap.self h1)
       (fst (forecast_spec (Heap.self h1) (Heap.pricing h1) (Heap.demand_matrix h1)))
       (Heap.demand_matrix h1),
     Ok (snd (forecast_spec (Heap.self h1) (Heap.pricing h1) (Heap.demand_matrix h1))))).
  { apply forecast_run; subst h1; cbn [Heap.self Heap.pricing Heap.demand_matrix].
    - now rewrite (depleted_keys Hdep).
    - unfold covers in *. rewrite (depleted_keys Hdep). exact Hcov. }
  exists h1, out1. eexists. eexists.
  split; [exact Hrun1|]. split; [exact Hrun2|]. split.
  - rewrite <- (length_map (@t_day R)), Hdays. unfold dict_keys. apply length_map.
  - subst h1. cbn [Heap.self Heap.pricing Heap.demand_matrix].
    unfold forecast_spec. exact Hsecond.
Qed.

Lemma forecast_twice_sells_less_witness :
  exists h1 out1 h2 out2,
    forecast Scenario.heap = (h1, Ok out1) /\
    forecast h1 = (h2, Ok out2) /\
    Forall2 Z.le (sold_per_day 4 out2) (sold_per_day 4 out1).
Proof.
  destruct (forecast_twice_sells_less Scenario.heap) as
    (h1 & out1 & h2 & out2 & Hrun1 & Hrun2 & _ & Hle).
  - exact example_pricing_nodup.
  - apply coversb_covers. reflexivity.
  - exists h1, out1, h2, out2. repeat split; assumption.
Defined.

(** C10: under the same conditions, a pricing without negative inventory
    has no negative inventory after [forecast]; a level that is decremented
    loses [fill] seats with [0 < fill <= count], [count] being what the
    level holds. *)
Theorem forecast_never_oversells {R : Type} {numR : Num R} {moneyR : Money R}
    (h : Heap.t R) :
  NoDup (dict_keys (Heap.pricing h)) ->
  covers (Heap.demand_matrix h) (Heap.pricing h) ->
  in_stock (Heap.pricing h) ->
  (exists h' out, forecast h = (h', Ok out) /\ in_stock (Heap.pricing h')) /\
  (forall demand p count d sold (money : R) pre rest,
     Heap.pricing h = pre ++ (p, count) :: rest ->
     row_get (Heap.pricing h) demand p = Some d ->
     let fill := Z.min (d - sold) count in
     (0 < fill)%Z ->
     (fill <= count)%Z /\
     forecast_price demand p count (sold, money) h =
     (Heap.make (Heap.self h) (pre ++ (p, count - fill)%Z :: rest)
                (Heap.demand_matrix h),
      Ok ((sold + fill)%Z, num_add_int money (p * fill)%Z))).
Proof.
  intros Hnd Hcov Hstock. split.
  - eexists. eexists. split; [apply forecast_run; assumption|].
    cbn [Heap.pricing]. unfold forecast_spec.
    pose proof (days_spec_facts (Heap.demand_matrix h) (Heap.pricing h)
                  (Z.of_nat (length (OD.passengers (Heap.self h))))
                  (sum_prices (OD.passengers (Heap.self h)))) as Hfacts.
    destruct (days_spec _ _ _ _) as [pricing' out].
    destruct Hfacts as (_ & _ & _ & Hs). cbn [fst]. apply Hs, Hstock.
  - intros demand p count d sold money pre rest Hp Hd fill Hfill.
    split; [subst fill; lia|].
    assert (Hpre : ~ In p (dict_keys pre)).
    { rewrite Hp in Hnd. unfold dict_keys in Hnd. rewrite map_app in Hnd.
      cbn [map fst] in Hnd. apply NoDup_remove_2 in Hnd.
      intros Hin. apply Hnd, in_or_app. now left. }
    rewrite (@forecast_price_run R moneyR demand p count d sold money pre rest h Hp Hpre Hd).
    fold fill. destruct (Z.leb_spec fill 0); [lia|reflexivity].
Qed.

Lemma forecast_never_oversells_witness :
  exists h' out, forecast Scenario.heap = (h', Ok out) /\ in_stock (Heap.pricing h').
Proof.
  apply (forecast_never_oversells Scenario.heap).
  - exact example_pricing_nodup.
  - apply coversb_covers. reflexivity.
  - repeat constructor; simpl; discriminate.
Defined.

(** * Further properties *)

(** ** Dictionaries: assignment *)

Section DictAssignFacts.
Context {K V : Type} `{PyEqLaws K}.

Lemma dict_keys_set (d : dict K V) (k : K) (v : V) :
  dict_keys (dict_set d k v) = dict_keys d ++ (if has_key d k then [] else [k]).
Proof.
  unfold has_key. induction d as [|[k' v'] d IH]; simpl; [reflexivity|].
  destruct (py_eqb k' k); simpl.
  - now rewrite app_nil_r.
  - now rewrite IH.
Qed.

(** a run of assignments [d[k] = f k] *)
Lemma dict_get_fold_set (f : K -> V) (ks : list K) : forall (d : dict K V) (k : K),
  dict_get (fold_left (fun acc kv => dict_set acc (fst kv) (snd kv))
                      (map (fun k => (k, f k)) ks) d) k =
  if existsb (fun k' => py_eqb k' k) ks then Some (f k) else dict_get d k.
Proof.
  induction ks as [|k0 ks IH]; intros d k; simpl; [reflexivity|].
  rewrite IH, dict_get_set.
  destruct (existsb (fun k' => py_eqb k' k) ks); [now rewrite orb_true_r|].
  rewrite orb_false_r. destruct (py_eqb k0 k) eqn:E; [|reflexivity].
  apply py_eqb_eq in E. now subst.
Qed.

Lemma dict_keys_fold_set (kvs : list (K * V)) : forall d : dict K V,
  exists added,
    dict_keys (fold_left (fun acc kv => dict_set acc (fst kv) (snd kv)) kvs d) =
    dict_keys d ++ added /\
    (length added <= length kvs)%nat.
Proof.
  induction kvs as [|[k v] kvs IH]; intros d; simpl.
  - exists []. split; [now rewrite app_nil_r|auto].
  - destruct (IH (dict_set d k v)) as (added & E & Hlen).
    rewrite dict_keys_set, <- app_assoc in E.
    eexists. split; [exact E|].
    rewrite length_app. destruct (has_key d k); simpl; lia.
Qed.

Lemma existsb_py_eqb_in (ks : list K) (k : K) :
  existsb (fun k' => py_eqb k' k) ks = true <-> In k ks.
Proof.
  rewrite existsb_exists. split.
  - intros (k' & Hin & E). apply py_eqb_eq in E. now subst.
  - intros Hin. exists k. split; [exact Hin|apply py_eqb_refl].
Qed.
End DictAssignFacts.

(** ** Loading an itinerary into any service *)

Section LoadAny.
Context {R : Type}.

Definition fresh_od (key : Station * Station) : OD.t R :=
  OD.make (fst key) (snd key) [].

(** the legs [load_itinerary] appends to legs [legs] for an itinerary *)
Definition appended_legs (legs : list Leg.t) (it : list Station) : list Leg.t :=
  map (fun k => Leg.make (fresh_leg_id legs + k) (nth k it 0) (nth (S k) it 0))
      (seq 0 (length it - 1)).

Lemma load_itinerary_any (it : list Station) (s : Service.t R) :
  load_itinerary it s =
  (Service.make (Service.name s) (Service.departure_date s)
     (Service.legs s ++ appended_legs (Service.legs s) it)
     (fold_left set_entry (map (fun k => (k, fresh_od k)) (od_keys it))
                (Service.ods s)),
   Ok tt).
Proof.
  unfold load_itinerary, enumerate, appended_legs.
  destruct it as [|x it'].
  - simpl. unfold ret. rewrite app_nil_r. destruct s; reflexivity.
  - set (it := x :: it').
    change (combine (seq 0 (length it)) it)
      with ((0, x) :: combine (seq 1 (length it')) (skipn 1 it)).
    cbn [load_itinerary_loop Nat.eqb].
    rewrite load_itinerary_loop_run by (subst it; simpl; lia).
    unfold od_keys.
    replace (length it - 1) with (length it') by (subst it; simpl; lia).
    rewrite new_ods_entries. f_equal. f_equal. f_equal.
    rewrite <- seq_shift, map_map. apply map_ext. intros k.
    f_equal; [lia|]. f_equal. lia.
Qed.

Lemma appended_legs_ids (legs : list Leg.t) (it : list Station) :
  map Leg.id (appended_legs legs it) =
  map (fun k => fresh_leg_id legs + k) (seq 0 (length it - 1)).
Proof. unfold appended_legs. rewrite map_map. reflexivity. Qed.

Lemma leg_in_false (leg : Leg.t) (legs : list Leg.t) :
  (forall l, In l legs -> Leg.id l <> Leg.id leg) -> leg_in leg legs = false.
Proof.
  intros Hne. unfold leg_in. destruct (existsb _ legs) eqn:E; [|reflexivity].
  apply existsb_exists in E. destruct E as (l & Hl & E).
  apply py_eqb_eq in E. now apply Hne in Hl.
Qed.

(** X1: on any service and any itinerary, also one that repeats a station,
    [load_itinerary] raises nothing, keeps the name and the departure date,
    and appends one leg per consecutive pair of the itinerary, in order,
    after the legs the service already has; the appended legs are new
    objects, distinct from one another and from every leg the service
    had. *)
Theorem load_itinerary_appends_legs (it : list Station) (s : Service.t R) :
  exists s' added,
    load_itinerary it s = (s', Ok tt) /\
    Service.name s' = Service.name s /\
    Service.departure_date s' = Service.departure_date s /\
    Service.legs s' = Service.legs s ++ added /\
    map (fun leg => (Leg.origin leg, Leg.destination leg)) added =
      map (fun k => (nth k it 0, nth (S k) it 0)) (seq 0 (length it - 1)) /\
    length (Service.legs s') = length (Service.legs s) + (length it - 1) /\
    NoDup (map Leg.id added) /\
    (forall leg, In leg added -> leg_in leg (Service.legs s) = false) /\
    (forall old leg, In old (Service.legs s) -> In leg added ->
                     Leg.id old < Leg.id leg).
Proof.
  exists (fst (load_itinerary it s)), (appended_legs (Service.legs s) it).
  rewrite load_itinerary_any.
  cbn [fst Service.name Service.departure_date Service.legs].
  assert (Hnew : forall old leg, In old (Service.legs s) ->
            In leg (appended_legs (Service.legs s) it) -> Leg.id old < Leg.id leg).
  { intros old leg Hold Hleg. apply fresh_leg_id_above in Hold.
    apply (in_map Leg.id) in Hleg. rewrite appended_legs_ids in Hleg.
    apply in_map_iff in Hleg. destruct Hleg as (k & <- & _). lia. }
  repeat split.
  - unfold appended_legs. rewrite map_map. reflexivity.
  - unfold appended_legs. now rewrite length_app, length_map, length_seq.
  - rewrite appended_legs_ids. apply NoDup_map_NoDup_ForallPairs.
    + intros a b _ _ E. lia.
    + apply seq_NoDup.
  - intros leg Hleg. apply leg_in_false. intros l Hl E.
    specialize (Hnew l leg Hl Hleg). lia.
  - exact Hnew.
Qed.

(** X2: after [load_itinerary] on any service, the keys the service had
    come first, in their order, followed by new keys; a pair is a key
    exactly when it was one before or its first station stands before its
    second one in the itinerary; at most [N * (N - 1) / 2] keys are new. *)
Theorem load_itinerary_keys (it : list Station) (s : (Service.t R)) :
  let s' := fst (load_itinerary it s) in
  (exists added,
     dict_keys (Service.ods s') = dict_keys (Service.ods s) ++ added /\
     length added <= length it * (length it - 1) / 2) /\
  (forall a b,
     has_key (Service.ods s') (a, b) = true <->
     has_key (Service.ods s) (a, b) = true \/
     exists i j, i < j /\ nth_error it i = Some a /\ nth_error it j = Some b).
Proof.
  intros s'. subst s'. rewrite load_itinerary_any. cbn [fst Service.ods]. split.
  - destruct (dict_keys_fold_set (map (fun k => (k, fresh_od k)) (od_keys it))
                (Service.ods s)) as (added & E & Hlen).
    exists added. split; [exact E|]. rewrite length_map in Hlen.
    eapply Nat.le_trans; [exact Hlen|]. apply Nat.eq_le_incl.
    apply Nat.div_unique_exact; [discriminate|].
    destruct it as [|x it']; [reflexivity|]. unfold od_keys.
    rewrite length_od_keys_range by (simpl; lia).
    replace (2 * 1 + (length (x :: it') - 1) - 1) with (length (x :: it'))
      by (simpl; lia).
    apply Nat.mul_comm.
  - intros a b. unfold has_key, set_entry. rewrite dict_get_fold_set.
    destruct (existsb _ (od_keys it)) eqn:E.
    + apply existsb_py_eqb_in, in_od_keys in E. split; auto.
    + split; [now left|]. intros [Hold|Hnew]; [exact Hold|].
      apply in_od_keys, existsb_py_eqb_in in Hnew. congruence.
Qed.

(** X3: [load_itinerary] stores a new OD without passengers under every
    pair of the itinerary, also where the service had an OD with
    passengers, and leaves the ODs under all other keys as they were. *)
Theorem load_itinerary_resets_ods (it : list Station) (s : (Service.t R)) :
  let s' := fst (load_itinerary it s) in
  (forall i j a b,
     i < j -> nth_error it i = Some a -> nth_error it j = Some b ->
     dict_get (Service.ods s') (a, b) = Some (OD.make a b [])) /\
  (forall a b,
     ~ (exists i j, i < j /\ nth_error it i = Some a /\ nth_error it j = Some b) ->
     dict_get (Service.ods s') (a, b) = dict_get (Service.ods s) (a, b)).
Proof.
  intros s'. subst s'. rewrite load_itinerary_any. cbn [fst Service.ods].
  unfold set_entry. split.
  - intros i j a b Hij Hi Hj. rewrite dict_get_fold_set.
    assert (E : existsb (fun k' => py_eqb k' (a, b)) (od_keys it) = true).
    { apply existsb_py_eqb_in, in_od_keys. eauto. }
    now rewrite E.
  - intros a b Hno. rewrite dict_get_fold_set.
    destruct (existsb _ (od_keys it)) eqn:E; [|reflexivity].
    apply existsb_py_eqb_in, in_od_keys in E. contradiction.
Qed.

End LoadAny.

Lemma load_itinerary_resets_ods_witness :
  dict_get (Service.ods (fst (load_itinerary Scenario.itinerary Scenario.service)))
           (Scenario.ply, Scenario.lpd) =
  Some (OD.make Scenario.ply Scenario.lpd []) /\
  dict_get (Service.ods (fst (load_itinerary [Scenario.lpd; Scenario.msc]
                                             Scenario.service)))
           (Scenario.ply, Scenario.lpd) =
  dict_get (Service.ods Scenario.service) (Scenario.ply, Scenario.lpd).
Proof.
  split.
  - destruct (load_itinerary_resets_ods Scenario.itinerary Scenario.service)
      as [Hnew _]. apply (Hnew 0 1); [lia|reflexivity|reflexivity].
  - destruct (load_itinerary_resets_ods [Scenario.lpd; Scenario.msc]
                Scenario.service) as [_ Hold]. apply Hold.
    intros (i & j & Hij & Hi & Hj).
    destruct i as [|[|[|i]]]; simpl in Hi; discriminate.
Defined.

(** ** The legs an OD spans on a loaded itinerary *)

Section Span.
Context {R : Type}.
Variable it : list Station.
Hypothesis it_distinct : NoDup it.

Definition leg_at (k : nat) : Leg.t := Leg.make k (nth k it 0) (nth (S k) it 0).

Lemma consecutive_legs_leg_at :
  consecutive_legs it = map leg_at (seq 0 (length it - 1)).
Proof. reflexivity. Qed.

Lemma station_eqb_nth (a b : nat) :
  a < length it -> b < length it ->
  py_eqb (nth a it 0) (nth b it 0) = Nat.eqb a b.
Proof.
  intros Ha Hb. destruct (Nat.eqb_spec a b) as [->|Hne].
  - apply py_eqb_refl.
  - apply py_eqb_neq. intros E. apply Hne.
    apply (proj1 (NoDup_nth it 0) it_distinct); assumption.
Qed.

Lemma _legs_first_range : forall n a i,
  a <= i < a + n -> a + n <= length it - 1 ->
  _legs_first (nth i it 0) (map leg_at (seq a n)) =
  ([leg_at i], map leg_at (seq (S i) (a + n - S i))).
Proof.
  induction n as [|n IH]; intros a i Hi Hn; [lia|].
  cbn [seq map _legs_first leg_at Leg.origin].
  rewrite station_eqb_nth by lia.
  destruct (Nat.eqb_spec a i) as [->|Hne].
  - replace (i + S n - S i) with n by lia. reflexivity.
  - rewrite IH by lia. do 3 f_equal. lia.
Qed.

Lemma _legs_second_range : forall n a j,
  j < length it -> a + n <= length it - 1 ->
  _legs_second (nth j it 0) (map leg_at (seq a n)) =
  map leg_at (seq a (if (a <=? j) && (j <? a + n) then j - a else n)).
Proof.
  induction n as [|n IH]; intros a j Hj Hn.
  - destruct ((a <=? j) && (j <? a + 0)) eqn:E; [|reflexivity].
    apply andb_true_iff in E. destruct E as [E1 E2].
    apply Nat.leb_le in E1. apply Nat.ltb_lt in E2. lia.
  - cbn [seq map _legs_second leg_at Leg.origin].
    rewrite station_eqb_nth by lia.
    destruct (Nat.eqb_spec a j) as [->|Hne].
    + rewrite Nat.leb_refl. cbn [andb].
      destruct (Nat.ltb_spec j (j + S n)); [|lia].
      now rewrite Nat.sub_diag.
    + rewrite IH by lia.
      destruct (Nat.leb_spec a j), (Nat.ltb_spec j (a + S n)),
               (Nat.leb_spec (S a) j), (Nat.ltb_spec j (S a + n));
        cbn [andb]; try lia; try reflexivity.
      replace (j - a) with (S (j - S a)) by lia. reflexivity.
Qed.

(** the legs of the OD from the [i]-th to the [j]-th station *)
Lemma OD_legs_range (s : (Service.t R)) (i j : nat) (ps : list (Passenger.t R)) :
  Service.legs s = consecutive_legs it ->
  i < length it - 1 -> j < length it ->
  OD_legs s (OD.make (nth i it 0) (nth j it 0) ps) =
  map leg_at (seq i ((if i <? j then j else length it - 1) - i)).
Proof.
  intros Hlegs Hi Hj. unfold OD_legs, _legs.
  cbn [OD.origin OD.destination]. rewrite Hlegs, consecutive_legs_leg_at.
  rewrite _legs_first_range by lia. rewrite _legs_second_range by lia.
  cbn [app]. change (leg_at i :: map leg_at ?l) with (map leg_at (i :: l)).
  f_equal.
  destruct (Nat.leb_spec (S i) j), (Nat.ltb_spec j (S i + (0 + (length it - 1) - S i))),
           (Nat.ltb_spec i j); cbn [andb]; try lia.
  - replace (j - i) with (S (j - S i)) by lia. reflexivity.
  - replace (j - i) with (S (0 + (length it - 1) - S i)) by lia. reflexivity.
  - replace (length it - 1 - i) with (S (0 + (length it - 1) - S i)) by lia.
    reflexivity.
Qed.

Lemma leg_in_range (k i n : nat) :
  leg_in (leg_at k) (map leg_at (seq i n)) = true <-> i <= k < i + n.
Proof.
  unfold leg_in. rewrite existsb_exists. split.
  - intros (l & Hl & E). apply in_map_iff in Hl. destruct Hl as (k' & <- & Hk').
    apply in_seq in Hk'. apply py_eqb_eq in E. simpl in E. lia.
  - intros Hk. exists (leg_at k). split; [|apply py_eqb_refl].
    apply in_map, in_seq. lia.
Qed.
End Span.

(** X4: in a service loaded from an itinerary of distinct stations, the OD
    from the [i]-th to the [j]-th station, [i < j], has exactly the legs
    [i], ..., [j - 1], in order: [j - i] legs, all the legs for the OD of the
    whole itinerary and one leg for an OD of two consecutive stations. *)
Theorem OD_legs_span {R : Type} (name : string) (date : Z) (it : list Station)
    (i j : nat) (ps : list (Passenger.t R)) :
  NoDup it -> i < j < length it ->
  let s := fst (load_itinerary it ((Service_init (R:=R) name date))) in
  let od := OD.make (nth i it 0) (nth j it 0) ps in
  OD_legs s od = map (leg_at it) (seq i (j - i)) /\
  length (OD_legs s od) = j - i /\
  (i = 0 -> j = length it - 1 -> OD_legs s od = Service.legs s) /\
  (j = S i -> OD_legs s od = [leg_at it i]).
Proof.
  intros Hnd Hij s od. subst s od. rewrite load_itinerary_run by exact Hnd.
  cbn [fst]. set (s0 := Service.make name date (consecutive_legs it) _).
  assert (E : OD_legs s0 (OD.make (nth i it 0) (nth j it 0) ps) =
              map (leg_at it) (seq i (j - i))).
  { rewrite (@OD_legs_range R it Hnd s0 i j ps eq_refl) by lia.
    destruct (Nat.ltb_spec i j); [reflexivity|lia]. }
  rewrite E. repeat split.
  - now rewrite length_map, length_seq.
  - intros -> ->. now rewrite Nat.sub_0_r.
  - intros ->. replace (S i - i) with 1 by lia. reflexivity.
Qed.

Lemma OD_legs_span_witness :
  OD_legs (fst (load_itinerary [0; 1; 2; 3] (Service_init (R:=Z) "7601" 7)))
          (OD.make 1 3 []) =
  [Leg.make 1 1 2; Leg.make 2 2 3].
Proof.
  assert (Hnd : NoDup [0; 1; 2; 3]).
  { repeat constructor; simpl; intuition discriminate. }
  destruct (@OD_legs_span Z "7601" 7 [0; 1; 2; 3] 1 3 [] Hnd ltac:(simpl; lia))
    as (E & _).
  exact E.
Defined.

(** X5: in such a service, an OD whose destination does not stand after
    its origin in the itinerary ([j <= i]) gets every leg from its origin
    to the end of the itinerary; nothing is raised. *)
Theorem OD_legs_reversed {R : Type} (name : string) (date : Z) (it : list Station)
    (i j : nat) (ps : list (Passenger.t R)) :
  NoDup it -> j <= i -> i < length it - 1 ->
  let s := fst (load_itinerary it ((Service_init (R:=R) name date))) in
  OD_legs s (OD.make (nth i it 0) (nth j it 0) ps) =
  map (leg_at it) (seq i (length it - 1 - i)).
Proof.
  intros Hnd Hji Hi s. subst s. rewrite load_itinerary_run by exact Hnd.
  cbn [fst]. set (s0 := Service.make name date (consecutive_legs it) _).
  rewrite (@OD_legs_range R it Hnd s0 i j ps eq_refl) by lia.
  destruct (Nat.ltb_spec i j); [lia|reflexivity].
Qed.

Lemma OD_legs_reversed_witness :
  OD_legs (fst (load_itinerary [0; 1; 2; 3] (Service_init (R:=Z) "7601" 7)))
          (OD.make 1 0 []) =
  [Leg.make 1 1 2; Leg.make 2 2 3].
Proof.
  assert (Hnd : NoDup [0; 1; 2; 3]).
  { repeat constructor; simpl; intuition discriminate. }
  exact (@OD_legs_reversed Z "7601" 7 [0; 1; 2; 3] 1 0 [] Hnd
           ltac:(lia) ltac:(simpl; lia)).
Defined.

(** ** Who rides a leg *)

Section WhoRides.
Context {R : Type}.

Lemma dict_entries_by_get {K V} `{PyEqLaws K} (g : K -> V -> V) (d : dict K V) :
  forall d' : dict K V,
  NoDup (dict_keys d) ->
  dict_keys d' = dict_keys d ->
  (forall k v, dict_get d k = Some v -> dict_get d' k = Some (g k v)) ->
  d' = map (fun kv => (fst kv, g (fst kv) (snd kv))) d.
Proof.
  induction d as [|[k v] d IH]; intros d' Hnd Hkeys Hget.
  - destruct d'; [reflexivity|discriminate].
  - destruct d' as [|[k' v'] d']; [discriminate|].
    simpl in Hkeys. injection Hkeys as -> Hkeys.
    inversion Hnd as [|? ? Hk Hnd']; subst. simpl.
    pose proof (Hget k v) as Hhead. simpl in Hhead.
    rewrite py_eqb_refl in Hhead. specialize (Hhead eq_refl).
    injection Hhead as ->. f_equal. apply IH; [exact Hnd'|exact Hkeys|].
    intros k2 v2 Hk2.
    assert (Hne : py_eqb k k2 = false).
    { apply py_eqb_neq. intros ->. apply Hk.
      apply dict_get_some_key. congruence. }
    specialize (Hget k2 v2). simpl in Hget. rewrite Hne in Hget. auto.
Qed.

Lemma NoDup_od_keys (it : list Station) : NoDup it -> NoDup (od_keys it).
Proof.
  intros Hnd. unfold od_keys. destruct it as [|x it']; [constructor|].
  apply NoDup_od_keys_range; [exact Hnd|simpl; lia].
Qed.

(** the service after an itinerary and a manifest of its pairs were loaded *)
Lemma itinerary_manifest_loaded (name : string) (date : Z) (it : list Station)
    (ps : list (Passenger.t R)) :
  NoDup it ->
  (forall q, In q ps ->
     exists i j, i < j /\ nth_error it i = Some (Passenger.origin q) /\
                 nth_error it j = Some (Passenger.destination q)) ->
  exists s',
    (load_itinerary it ;; load_passenger_manifest ps) ((Service_init (R:=R) name date)) =
      (s', Ok tt) /\
    Service.legs s' = consecutive_legs it /\
    Service.ods s' =
      map (fun key => (key, OD.make (fst key) (snd key)
                              (filter (fun p => py_eqb (od_key p) key) ps)))
          (od_keys it).
Proof.
  intros Hnd Hrouted. unfold bind. rewrite load_itinerary_run by exact Hnd.
  set (s0 := Service.make name date (consecutive_legs it) _).
  destruct (load_passenger_manifest_ok ps s0) as (s' & Hrun & _ & _ & Hl & Hk & Hods).
  { intros q Hq. subst s0. cbn [Service.ods].
    rewrite has_key_in, dict_keys_entries. destruct q as [a b d pr].
    apply in_od_keys. exact (Hrouted _ Hq). }
  exists s'. split; [exact Hrun|]. split; [exact Hl|].
  rewrite (@dict_entries_by_get _ _ _ _ (fun k od => od_with od k ps)
             (Service.ods s0) (Service.ods s')).
  - subst s0. cbn [Service.ods]. rewrite map_map. reflexivity.
  - subst s0. cbn [Service.ods]. rewrite dict_keys_entries.
    now apply NoDup_od_keys.
  - exact Hk.
  - exact Hods.
Qed.

(** X6: after an itinerary of distinct stations and then a manifest whose
    passengers all travel forward between stations of the itinerary are
    loaded into a fresh service, nothing is raised, and a passenger is
    among the passengers of the [k]-th leg exactly when the passenger is in the
    manifest, boards at or before the [k]-th station and leaves after
    it. *)
Theorem Leg_passengers_boarding (name : string) (date : Z) (it : list Station)
    (ps : list (Passenger.t R)) (k : nat) :
  NoDup it ->
  (forall q, In q ps ->
     exists i j, i < j /\ nth_error it i = Some (Passenger.origin q) /\
                 nth_error it j = Some (Passenger.destination q)) ->
  k < length it - 1 ->
  exists s',
    (load_itinerary it ;; load_passenger_manifest ps) ((Service_init (R:=R) name date)) =
      (s', Ok tt) /\
    nth_error (Service.legs s') k = Some (leg_at it k) /\
    forall p,
      In p (Leg_passengers s' (leg_at it k)) <->
      In p ps /\
      exists i j, i <= k < j /\ nth_error it i = Some (Passenger.origin p) /\
                  nth_error it j = Some (Passenger.destination p).
Proof.
  intros Hnd Hrouted Hk.
  destruct (@itinerary_manifest_loaded name date it ps Hnd Hrouted)
    as (s' & Hrun & Hlegs & Hods).
  exists s'. split; [exact Hrun|]. split.
  { rewrite Hlegs. unfold consecutive_legs.
    rewrite nth_error_map, nth_error_seq.
    destruct (Nat.ltb_spec k (length it - 1)); [reflexivity|lia]. }
  assert (Hspan : forall i j l, i < j -> j < length it ->
    leg_in (leg_at it k)
           (OD_legs s' (OD.make (nth i it 0) (nth j it 0) l)) = true <->
    i <= k < j).
  { intros i j l Hij Hj.
    rewrite (@OD_legs_range R it Hnd s' i j l Hlegs) by lia.
    destruct (Nat.ltb_spec i j); [|lia].
    rewrite leg_in_range. lia. }
  intros p. unfold Leg_passengers. rewrite Leg_passengers_loop_concat.
  cbn [app]. rewrite in_concat. unfold dict_values. rewrite Hods, map_map.
  cbn [snd]. split.
  - intros (l & Hl & Hp). apply in_map_iff in Hl. destruct Hl as (od & <- & Hod).
    apply filter_In in Hod. destruct Hod as [Hod Hcross].
    apply in_map_iff in Hod. destruct Hod as ([a b] & <- & Hkey).
    cbn [fst snd OD.passengers] in *. apply filter_In in Hp.
    destruct Hp as [Hp Hpk]. apply py_eqb_eq in Hpk.
    unfold od_key in Hpk. injection Hpk as Ha Hb.
    apply in_od_keys in Hkey. destruct Hkey as (i & j & Hij & Hi & Hj).
    assert (Hjlen : j < length it) by (apply nth_error_Some; congruence).
    rewrite <- (nth_error_nth it i 0 Hi), <- (nth_error_nth it j 0 Hj) in Hcross.
    apply Hspan in Hcross; [|exact Hij|exact Hjlen].
    split; [exact Hp|]. exists i, j. rewrite Ha, Hb. auto.
  - intros (Hp & i & j & Hikj & Hi & Hj).
    assert (Hjlen : j < length it) by (apply nth_error_Some; congruence).
    exists (filter (fun q => py_eqb (od_key q) (od_key p)) ps). split.
    + apply in_map_iff.
      exists (OD.make (Passenger.origin p) (Passenger.destination p)
                (filter (fun q => py_eqb (od_key q) (od_key p)) ps)).
      split; [reflexivity|]. apply filter_In. split.
      * apply in_map_iff. exists (od_key p). split; [reflexivity|].
        apply in_od_keys. exists i, j. repeat split; auto; lia.
      * rewrite <- (nth_error_nth it i 0 Hi), <- (nth_error_nth it j 0 Hj).
        apply Hspan; [lia|exact Hjlen|lia].
    + apply filter_In. split; [exact Hp|apply py_eqb_refl].
Qed.
End WhoRides.

Lemma Leg_passengers_boarding_witness :
  exists s',
    (load_itinerary Scenario.itinerary ;; load_passenger_manifest Scenario.manifest)
      (Service_init (R:=Z) "7601" 7) = (s', Ok tt) /\
    forall p,
      In p (Leg_passengers s' (leg_at Scenario.itinerary 1)) <->
      In p Scenario.manifest /\
      exists i j, i <= 1 < j /\
                  nth_error Scenario.itinerary i = Some (Passenger.origin p) /\
                  nth_error Scenario.itinerary j = Some (Passenger.destination p).
Proof.
  destruct (@Leg_passengers_boarding Z "7601" 7 Scenario.itinerary
              Scenario.manifest 1) as (s' & Hrun & _ & Hiff).
  - repeat constructor; simpl; intuition discriminate.
  - intros q Hq. vm_compute in Hq.
    destruct Hq as [<-|[<-|[<-|[<-|[<-|[]]]]]];
      first [ exists 0, 1; repeat split; lia
            | exists 0, 2; repeat split; lia ].
  - simpl. lia.
  - exists s'. split; assumption.
Defined.

(** ** More on loading a manifest *)









(** ** More on the history *)

Section HistoryMore.
Context {R : Type} {numR : Num R}.
Local Open Scope Z_scope.

Lemma length_insert_day (d : Z) (l : list Z) :
  (length (insert_day d l) <= S (length l))%nat.
Proof.
  induction l as [|x l IH]; simpl; [lia|].
  destruct (d <? x); [simpl; lia|]. destruct (d =? x); simpl; lia.
Qed.

Lemma length_sale_days (ps : list (Passenger.t R)) :
  (length (sale_days ps) <= length ps)%nat.
Proof.
  unfold sale_days. induction ps as [|p ps IH]; simpl; [lia|].
  pose proof (length_insert_day (Passenger.sale_day_x p)
                (fold_right insert_day [] (map Passenger.sale_day_x ps))). lia.
Qed.

Lemma sold_by_length_strict (d d' : Z) (p : Passenger.t R)
    (ps : list (Passenger.t R)) :
  In p ps -> d < Passenger.sale_day_x p <= d' ->
  Z.of_nat (length (sold_by d ps)) < Z.of_nat (length (sold_by d' ps)).
Proof.
  intros Hin Hp. induction ps as [|q ps IH]; [destruct Hin|].
  pose proof (@sold_by_length_mono R d d' ps ltac:(lia)) as Hmono.
  unfold sold_by in *. simpl.
  destruct Hin as [->|Hin].
  - destruct (Z.leb_spec (Passenger.sale_day_x p) d),
             (Z.leb_spec (Passenger.sale_day_x p) d'); simpl; lia.
  - specialize (IH Hin).
    destruct (Z.leb_spec (Passenger.sale_day_x q) d),
             (Z.leb_spec (Passenger.sale_day_x q) d'); simpl; lia.
Qed.

Lemma StronglySorted_map_in {A B} (P : A -> A -> Prop) (Q : B -> B -> Prop)
    (f : A -> B) (l : list A) :
  (forall a b, In a l -> In b l -> P a b -> Q (f a) (f b)) ->
  StronglySorted P l -> StronglySorted Q (map f l).
Proof.
  intros Hf Hs. induction Hs as [|a l _ IH Ha]; simpl; constructor.
  - apply IH. intros x y Hx Hy. apply Hf; now right.
  - apply Forall_forall. intros b Hb. apply in_map_iff in Hb.
    destruct Hb as (c & <- & Hc). rewrite Forall_forall in Ha.
    apply Hf; [now left|now right|auto].
Qed.

(** the days and counts of the history, from the passengers in any order *)
Lemma history_days_counts (od : OD.t R) (ps : list (Passenger.t R)) :
  Permutation (OD.passengers od) ps ->
  map (fun t => (t_day t, t_count t)) (history od) =
  map (fun d => (d, Z.of_nat (length (sold_by d ps)))) (sale_days ps).
Proof.
  intros Hperm. rewrite history_refines. unfold history_spec.
  apply cumulative_counts.
  eapply perm_trans; [|exact Hperm].
  apply Permutation_sym, sorted_perm.
Qed.
End HistoryMore.

(** With [float] prices the history depends on the order of the passengers
    of one sale day. *)
Lemma history_float_order :
  history (OD.make 0 1 [Passenger.make 0 1 (-1) 0.1%float;
                        Passenger.make 0 1 (-1) 0.2%float;
                        Passenger.make 0 1 (-1) 0.3%float]) <>
  history (OD.make 0 1 [Passenger.make 0 1 (-1) 0.3%float;
                        Passenger.make 0 1 (-1) 0.2%float;
                        Passenger.make 0 1 (-1) 0.1%float]).
Proof.
  intros E.
  apply (f_equal (fun l => Prim2SF (last (map t_revenue l) 0%float))) in E.
  vm_compute in E. discriminate E.
Qed.

(** X10: the days and the counts of the history do not depend on the order
    in which the passengers were appended to the OD, nor on the stations
    of the OD; where sums do not depend on the order of the terms, as for
    [int] prices, neither do the revenues: two ODs whose passenger lists
    are permutations of each other then have the same history. *)
Theorem history_permutation {R : Type} {numR : Num R} (od od' : OD.t R) :
  Permutation (OD.passengers od) (OD.passengers od') ->
  map (fun t => (t_day t, t_count t)) (history od) =
  map (fun t => (t_day t, t_count t)) (history od') /\
  (forall E : NumExact R, history od = history od').
Proof.
  intros Hperm. split.
  - rewrite (history_days_counts od Hperm).
    now rewrite (history_days_counts od' (Permutation_refl _)).
  - intros E. rewrite !history_refines. unfold history_spec.
    apply cumulative_perm.
    eapply perm_trans; [apply Permutation_sym, sorted_perm|].
    eapply perm_trans; [exact Hperm|apply sorted_perm].
Qed.

Lemma history_permutation_witness :
  history (OD.make 0 1 [Passenger.make 0 1 (-20) 40%Z; Passenger.make 0 1 (-30) 20%Z]) =
  history (OD.make 0 1 [Passenger.make 0 1 (-30) 20%Z; Passenger.make 0 1 (-20) 40%Z]).
Proof.
  apply history_permutation; [|exact NumExact_Z]. simpl. apply perm_swap.
Defined.

(** X11: every triplet of the history records at least one sale: the
    counts are positive and strictly ascending, and the history has at
    most as many triplets as the OD has passengers. *)
Theorem history_counts_strict {R : Type} {numR : Num R} (od : OD.t R) :
  StronglySorted Z.lt (map t_count (history od)) /\
  Forall (fun t => (1 <= t_count t)%Z) (history od) /\
  length (history od) <= length (OD.passengers od).
Proof.
  rewrite history_refines. unfold history_spec, cumulative.
  set (ps := sorted Passenger.sale_day_x (OD.passengers od)).
  repeat split.
  - rewrite map_map. cbn [t_count fst snd].
    apply StronglySorted_map_in with (P := Z.lt); [|apply sale_days_sorted].
    intros a b _ Hb Hab. apply in_sale_days, in_map_iff in Hb.
    destruct Hb as (p & Hp & Hin).
    apply (@sold_by_length_strict R a b p _ Hin). lia.
  - apply Forall_forall. intros t Ht. apply in_map_iff in Ht.
    destruct Ht as (d & <- & Hd). cbn [t_count fst snd].
    apply in_sale_days, in_map_iff in Hd. destruct Hd as (p & Hp & Hin).
    pose proof (@sold_by_length_strict R (d - 1)%Z d p _ Hin ltac:(lia)). lia.
  - rewrite length_map.
    rewrite (Permutation_length (sorted_perm Passenger.sale_day_x (OD.passengers od))).
    apply length_sale_days.
Qed.

(** ** Forecast: a demand without a price level *)

Section ForecastRaises.
Context {R : Type} {numR : Num R} {moneyR : Money R}.
Local Open Scope Z_scope.

Lemma demand_covers_dec (demand : dict Z Z) (keys : list Z) :
  (forall p, In p keys -> dict_get demand p <> None) \/
  (exists p, In p keys /\ dict_get demand p = None).
Proof.
  induction keys as [|k keys IH].
  - left. intros p [].
  - destruct (dict_get demand k) eqn:E.
    + destruct IH as [Hall|(p & Hp & Hnone)].
      * left. intros p [<-|Hp]; [congruence|auto].
      * right. exists p. split; [now right|exact Hnone].
    + right. exists k. split; [now left|exact E].
Qed.

Lemma row_covers_dec (demand : row) (keys : list Z) :
  row_covers demand keys \/
  (exists d p, demand = Own d /\ In p keys /\ dict_get d p = None).
Proof.
  destruct demand as [d|]; [|left; exact I].
  destruct (demand_covers_dec d keys) as [Hall|(p & Hp & Hnone)].
  - left. exact Hall.
  - right. exists d, p. auto.
Qed.

Lemma row_covers_own (demand : row) (keys : list Z) (d : dict Z Z) (p : Z) :
  row_covers demand keys -> demand = Own d -> In p keys -> dict_get d p <> None.
Proof. intros Hcov ->. exact (Hcov p). Qed.

Lemma covers_dec (demand_matrix : dict Z row) (pricing : dict Z Z) :
  covers demand_matrix pricing \/ lacking demand_matrix (dict_keys pricing).
Proof.
  unfold covers, lacking. induction demand_matrix as [|[day demand] rest IH].
  - left. intros ? ? [].
  - destruct (row_covers_dec demand (dict_keys pricing))
      as [Hhead|(d & p & -> & Hp & Hnone)].
    + destruct IH as [Hall|(d0 & dem0 & p & Hin & Hp & Hnone)].
      * left. intros d0 dem0 [[= <- <-]|Hin]; [exact Hhead|eauto].
      * right. exists d0, dem0, p. repeat split; auto. now right.
    + right. exists day, d, p. repeat split; auto. now left.
Qed.

Lemma covers_not_lacking (demand_matrix : dict Z row) (pricing : dict Z Z) :
  covers demand_matrix pricing -> ~ lacking demand_matrix (dict_keys pricing).
Proof.
  intros Hcov (day & d & p & Hin & Hp & Hnone).
  exact (Hcov day (Own d) Hin p Hp Hnone).
Qed.

(** a row lacking in [(day, demand) :: rest] is in [rest] when the first
    row covers the price levels *)
Lemma lacking_tail (day : Z) (demand : row) (rest : dict Z row) (keys : list Z) :
  row_covers demand keys -> lacking ((day, demand) :: rest) keys ->
  lacking rest keys.
Proof.
  intros Hhead (d0 & d & p & [E|Hin] & Hp & Hnone).
  - injection E as _ E. elim (@row_covers_own demand keys d p Hhead E Hp Hnone).
  - exists d0, d, p. auto.
Qed.

Lemma heap_eta (h : Heap.t R) :
  Heap.make (Heap.self h) (Heap.pricing h) (Heap.demand_matrix h) = h.
Proof. destruct h; reflexivity. Qed.

Lemma forecast_prices_raise (demand : dict Z Z) :
  forall rest pre n sold (money : R) (h : Heap.t R),
  Heap.pricing h = pre ++ rest ->
  NoDup (dict_keys (pre ++ rest)) ->
  (exists p, In p (dict_keys rest) /\ dict_get demand p = None) ->
  (length rest <= n)%nat ->
  exists rest',
    for_items_from Heap.pricing (forecast_price (Own demand)) n (length pre)
                   (sold, money) h =
    (Heap.make (Heap.self h) (pre ++ rest') (Heap.demand_matrix h),
     Raise KeyError) /\
    depleted rest' rest.
Proof.
  induction rest as [|[p c] rest IH]; intros pre n sold money h Hp Hnd Hmiss Hlen.
  - destruct Hmiss as (? & [] & _).
  - destruct n as [|n]; [simpl in Hlen; lia|]. cbn [for_items_from].
    rewrite Hp, nth_error_app2, Nat.sub_diag by lia. cbn [nth_error].
    assert (Hpre : ~ In p (dict_keys pre)).
    { unfold dict_keys in Hnd. rewrite map_app in Hnd. cbn [map fst] in Hnd.
      apply NoDup_remove_2 in Hnd. intros Hin. apply Hnd, in_or_app. now left. }
    destruct (dict_get demand p) as [d|] eqn:Hd.
    + assert (Hmiss' : exists q, In q (dict_keys rest) /\ dict_get demand q = None).
      { destruct Hmiss as (q & Hq & Hnone). simpl in Hq.
        destruct Hq as [<-|Hq]; [congruence|eauto]. }
      unfold bind.
      rewrite (@forecast_price_run R moneyR (Own demand) p c d sold money pre rest h
                 Hp Hpre Hd).
      destruct (Z.leb_spec (Z.min (d - sold) c) 0) as [Hskip|Hfill].
      * replace (S (length pre)) with (length (pre ++ [(p, c)]))
          by (rewrite length_app; simpl; lia).
        destruct (IH (pre ++ [(p, c)]) n sold money h) as (rest' & Hrun & Hdep);
          rewrite <- ?app_assoc; try assumption; [simpl in Hlen; lia|].
        exists ((p, c) :: rest'). rewrite Hrun, <- app_assoc. split; [reflexivity|].
        constructor; [split; [reflexivity|simpl; lia]|exact Hdep].
      * set (fill := Z.min (d - sold) c) in *.
        replace (S (length pre)) with (length (pre ++ [(p, c - fill)]))
          by (rewrite length_app; simpl; lia).
        destruct (IH (pre ++ [(p, c - fill)]) n (sold + fill)
                     (num_add_int money (p * fill))
                     (Heap.make (Heap.self h) (pre ++ (p, c - fill) :: rest)
                                (Heap.demand_matrix h)))
          as (rest' & Hrun & Hdep).
        -- cbn [Heap.pricing]. now rewrite <- app_assoc.
        -- rewrite <- app_assoc. unfold dict_keys in *.
           rewrite map_app in *. exact Hnd.
        -- exact Hmiss'.
        -- simpl in Hlen. lia.
        -- exists ((p, c - fill) :: rest'). rewrite Hrun, <- app_assoc.
           split; [reflexivity|].
           constructor; [split; [reflexivity|simpl; lia]|exact Hdep].
    + exists ((p, c) :: rest). split; [|apply depleted_refl].
      unfold bind, forecast_price, demand_getitem, bind. cbn [row_get].
      rewrite Hd. cbn [subscript raise].
      now rewrite <- Hp, heap_eta.
Qed.

Lemma forecast_days_raise :
  forall rest pre n head_count (money : R) yielded (h : Heap.t R),
  Heap.demand_matrix h = pre ++ rest ->
  NoDup (dict_keys (Heap.pricing h)) ->
  lacking rest (dict_keys (Heap.pricing h)) ->
  (length rest <= n)%nat ->
  exists pricing',
    for_items_from Heap.demand_matrix forecast_day n (length pre)
                   (head_count, money, yielded) h =
    (Heap.make (Heap.self h) pricing' (Heap.demand_matrix h), Raise KeyError) /\
    depleted pricing' (Heap.pricing h).
Proof.
  induction rest as [|[day demand] rest IH];
    intros pre n head_count money yielded h Hdm Hnd Hmiss Hlen.
  - destruct Hmiss as (? & ? & ? & [] & _).
  - destruct n as [|n]; [simpl in Hlen; lia|]. cbn [for_items_from].
    rewrite Hdm, nth_error_app2, Nat.sub_diag by lia. cbn [nth_error].
    destruct (row_covers_dec demand (dict_keys (Heap.pricing h)))
      as [Hhead|(d & p & -> & Hbad)].
    + unfold bind. rewrite forecast_day_run by assumption.
      pose proof (scan_spec_facts demand (Heap.pricing h) 0 money) as Hscan.
      destruct (scan_spec demand (Heap.pricing h) 0 money) as [[pricing1 sold] money1].
      destruct Hscan as (Hdep & _). pose proof (depleted_keys Hdep) as Hkeys.
      replace (S (length pre)) with (length (pre ++ [(day, demand)]))
        by (rewrite length_app; simpl; lia).
      destruct (IH (pre ++ [(day, demand)]) n (head_count + sold) money1
                   (yielded ++ [(day, head_count + sold, money1)])
                   (Heap.make (Heap.self h) pricing1 (Heap.demand_matrix h)))
        as (pricing2 & Hrun & Hdep2).
      * cbn [Heap.demand_matrix]. now rewrite Hdm, <- app_assoc.
      * cbn [Heap.pricing]. now rewrite Hkeys.
      * cbn [Heap.pricing]. rewrite Hkeys. eapply lacking_tail; eassumption.
      * simpl in Hlen. lia.
      * exists pricing2. rewrite <- Hdm. split; [exact Hrun|].
        cbn [Heap.pricing] in Hdep2. eapply depleted_trans; eassumption.
    + destruct (@forecast_prices_raise d (Heap.pricing h) [] _ 0 money h
                  eq_refl Hnd (ex_intro _ p Hbad) (le_n _))
        as (pricing' & Hraise & Hdep).
      cbn [length app] in Hraise.
      exists pricing'. split; [|exact Hdep].
      unfold bind at 1. unfold forecast_day, for_items. unfold bind at 1.
      rewrite Hraise, <- Hdm. reflexivity.
Qed.

(** the whole method when a demand lacks a price level *)
Lemma forecast_raise (h : Heap.t R) :
  NoDup (dict_keys (Heap.pricing h)) ->
  lacking (Heap.demand_matrix h) (dict_keys (Heap.pricing h)) ->
  exists pricing',
    forecast h =
    (Heap.make (Heap.self h) pricing' (Heap.demand_matrix h), Raise KeyError) /\
    depleted pricing' (Heap.pricing h).
Proof.
  intros Hnd Hmiss.
  destruct (@forecast_days_raise (Heap.demand_matrix h) [] _
              (Z.of_nat (length (OD.passengers (Heap.self h))))
              (sum_prices (OD.passengers (Heap.self h))) [] h
              eq_refl Hnd Hmiss (le_n _)) as (pricing' & Hr & Hdep).
  cbn [length] in Hr. exists pricing'. split; [|exact Hdep].
  unfold forecast, gets, for_items, bind. rewrite Hr. reflexivity.
Qed.
End ForecastRaises.

(** X12: with pairwise distinct price levels, [forecast] raises exactly
    when some day of the demand matrix has no demand for some price level
    of the pricing, whatever the inventory of that level, and what it
    raises is a [KeyError]. *)
Theorem forecast_raises_on_missing_demand {R : Type} {numR : Num R}
    {moneyR : Money R} (h : Heap.t R) :
  NoDup (dict_keys (Heap.pricing h)) ->
  ((exists e, snd (forecast h) = Raise e) <->
   (exists day demand p,
      In (day, Own demand) (Heap.demand_matrix h) /\
      In p (dict_keys (Heap.pricing h)) /\ dict_get demand p = None)) /\
  (forall e, snd (forecast h) = Raise e -> e = KeyError).
Proof.
  intros Hnd.
  assert (Hraise : lacking (Heap.demand_matrix h) (dict_keys (Heap.pricing h)) ->
    snd (forecast h) = Raise KeyError).
  { intros Hmiss. destruct (@forecast_raise R numR moneyR h Hnd Hmiss)
      as (pricing' & -> & _).
    reflexivity. }
  destruct (covers_dec (Heap.demand_matrix h) (Heap.pricing h)) as [Hcov|Hmiss].
  - rewrite (@forecast_run R numR moneyR h Hnd Hcov). cbn [snd]. split.
    + split; [intros (e & [=])|].
      intros Hmiss. elim (covers_not_lacking Hcov Hmiss).
    + intros e [=].
  - rewrite (Hraise Hmiss). split.
    + split; [intros _; exact Hmiss|intros _; eauto].
    + intros e [= <-]. reflexivity.
Qed.

Lemma forecast_raises_on_missing_demand_witness :
  exists e,
    snd (forecast (Heap.make Scenario.od Scenario.pricing
                             [(-7, Own [(10, 5); (20, 1); (30, 0); (40, 0)])]%Z)) =
    Raise e.
Proof.
  destruct (@forecast_raises_on_missing_demand Z _ _
              (Heap.make Scenario.od Scenario.pricing
                         [(-7, Own [(10, 5); (20, 1); (30, 0); (40, 0)])]%Z)
              example_pricing_nodup) as [[_ Hraise] _].
  apply Hraise.
  exists (-7)%Z, [(10, 5); (20, 1); (30, 0); (40, 0)]%Z, 50%Z.
  split; [now left|]. split; [|reflexivity].
  simpl. auto 10.
Defined.

Section ForecastKeeps.
Context {R : Type} {numR : Num R} {moneyR : Money R}.

(** an exception keeps what the days before it sold *)
Lemma forecast_days_raise_keeps :
  forall rest pre n head_count (money : R) yielded (h : Heap.t R) ok more,
  Heap.demand_matrix h = pre ++ rest ->
  NoDup (dict_keys (Heap.pricing h)) ->
  lacking rest (dict_keys (Heap.pricing h)) ->
  (length rest <= n)%nat ->
  rest = ok ++ more ->
  covers ok (Heap.pricing h) ->
  depleted
    (Heap.pricing
       (fst (for_items_from Heap.demand_matrix forecast_day n (length pre)
                            (head_count, money, yielded) h)))
    (fst (days_spec ok (Heap.pricing h) head_count money)).
Proof.
  induction rest as [|[day demand] rest IH];
    intros pre n head_count money yielded h ok more Hdm Hnd Hmiss Hlen Hsplit Hok.
  - destruct Hmiss as (? & ? & ? & [] & _).
  - destruct ok as [|[day' demand'] ok'].
    + destruct (@forecast_days_raise R moneyR ((day, demand) :: rest) pre n
                  head_count money yielded h Hdm Hnd Hmiss Hlen)
        as (pricing' & Hrun & Hdep).
      rewrite Hrun. exact Hdep.
    + cbn [app] in Hsplit. injection Hsplit as <- <- Hrest.
      assert (Hhead : row_covers demand (dict_keys (Heap.pricing h))).
      { apply (Hok day demand). now left. }
      destruct n as [|n]; [simpl in Hlen; lia|]. cbn [for_items_from].
      rewrite Hdm, nth_error_app2, Nat.sub_diag by lia. cbn [nth_error].
      unfold bind. rewrite forecast_day_run by assumption. cbn [days_spec].
      pose proof (scan_spec_facts demand (Heap.pricing h) 0%Z money) as Hscan.
      destruct (scan_spec demand (Heap.pricing h) 0%Z money) as [[pricing1 sold] money1].
      destruct Hscan as (Hdep & _). pose proof (depleted_keys Hdep) as Hkeys.
      replace (S (length pre)) with (length (pre ++ [(day, demand)]))
        by (rewrite length_app; simpl; lia).
      specialize (IH (pre ++ [(day, demand)]) n (head_count + sold)%Z money1
                     (yielded ++ [(day, (head_count + sold)%Z, money1)])
                     (Heap.make (Heap.self h) pricing1 (Heap.demand_matrix h))
                     ok' more).
      cbn [Heap.pricing Heap.demand_matrix] in IH.
      destruct (days_spec ok' pricing1 (head_count + sold)%Z money1) as [pricing2 out].
      cbn [fst] in *. apply IH.
      * now rewrite Hdm, <- app_assoc.
      * now rewrite Hkeys.
      * rewrite Hkeys. eapply lacking_tail; eassumption.
      * simpl in Hlen. lia.
      * exact Hrest.
      * unfold covers in *. rewrite Hkeys. intros d0 dem0 Hin.
        apply (Hok d0 dem0). now right.
Qed.
End ForecastKeeps.

(** X13: whatever its outcome, a triplet list or a [KeyError], [forecast]
    leaves the OD as it was, the demand matrix with the rows it had, each
    reading as before unless it is the pricing object, and no price level
    with more inventory than before.  An exception does not restore the
    seats sold before it: when the matrix starts with days that have a
    demand for every price level, the pricing left by the exception holds
    at most what these days leave of it. *)
Theorem forecast_frame_any_outcome {R : Type} {numR : Num R}
    {moneyR : Money R} (h : Heap.t R) :
  NoDup (dict_keys (Heap.pricing h)) ->
  exists pricing',
    fst (forecast h) = Heap.make (Heap.self h) pricing' (Heap.demand_matrix h) /\
    depleted pricing' (Heap.pricing h) /\
    Forall2 (fun after before =>
               fst after = fst before /\
               (snd after = snd before \/
                (snd after = pricing' /\ snd before = Heap.pricing h)))
            (rows_seen pricing' (Heap.demand_matrix h))
            (rows_seen (Heap.pricing h) (Heap.demand_matrix h)) /\
    (apart (Heap.demand_matrix h) ->
     rows_seen pricing' (Heap.demand_matrix h) =
     rows_seen (Heap.pricing h) (Heap.demand_matrix h)) /\
    ((exists day demand p,
        In (day, Own demand) (Heap.demand_matrix h) /\
        In p (dict_keys (Heap.pricing h)) /\ dict_get demand p = None) ->
     forecast h =
       (Heap.make (Heap.self h) pricing' (Heap.demand_matrix h), Raise KeyError) /\
     forall ok more,
       Heap.demand_matrix h = ok ++ more ->
       covers ok (Heap.pricing h) ->
       depleted pricing' (fst (forecast_spec (Heap.self h) (Heap.pricing h) ok))).
Proof.
  intros Hnd.
  destruct (covers_dec (Heap.demand_matrix h) (Heap.pricing h)) as [Hcov|Hmiss].
  - rewrite (@forecast_run R numR moneyR h Hnd Hcov). cbn [fst].
    eexists. split; [reflexivity|].
    split; [|split; [apply rows_seen_frame|split; [apply rows_seen_apart|]]].
    + unfold forecast_spec.
      pose proof (days_spec_facts (Heap.demand_matrix h) (Heap.pricing h)
                    (Z.of_nat (length (OD.passengers (Heap.self h))))
                    (sum_prices (OD.passengers (Heap.self h)))) as Hfacts.
      destruct (days_spec _ _ _ _) as [pricing' out]. apply Hfacts.
    + intros Hmiss. elim (covers_not_lacking Hcov Hmiss).
  - destruct (@forecast_raise R numR moneyR h Hnd Hmiss) as (pricing' & Hrun & Hdep).
    exists pricing'. rewrite Hrun. cbn [fst]. split; [reflexivity|].
    split; [exact Hdep|].
    split; [apply rows_seen_frame|split; [apply rows_seen_apart|]].
    intros _. split; [reflexivity|].
    intros ok more Hsplit Hok.
    pose proof (@forecast_days_raise_keeps R moneyR (Heap.demand_matrix h) [] _
                  (Z.of_nat (length (OD.passengers (Heap.self h))))
                  (sum_prices (OD.passengers (Heap.self h))) [] h ok more
                  eq_refl Hnd Hmiss (le_n _) Hsplit Hok) as Hkeep.
    cbn [length] in Hkeep. unfold forecast_spec.
    assert (E : Heap.pricing (fst (forecast h)) =
                Heap.pricing
                  (fst (for_items_from Heap.demand_matrix forecast_day
                          (length (Heap.demand_matrix h)) 0
                          (Z.of_nat (length (OD.passengers (Heap.self h))),
                           sum_prices (OD.passengers (Heap.self h)), []) h))).
    { unfold forecast, gets, for_items, bind.
      destruct (for_items_from Heap.demand_matrix forecast_day _ 0 _ h)
        as [h1 [r|e]]; reflexivity. }
    rewrite Hrun in E. cbn [fst Heap.pricing] in E. rewrite E. exact Hkeep.
Qed.

Lemma forecast_frame_any_outcome_witness :
  exists pricing',
    forecast (Heap.make Scenario.od Scenario.pricing
                [(-7, Own [(10, 5); (20, 1); (30, 0); (40, 0); (50, 0)]);
                 (-6, Own [(10, 5); (20, 2); (30, 1); (40, 1)])]%Z) =
    (Heap.make Scenario.od pricing'
       [(-7, Own [(10, 5); (20, 1); (30, 0); (40, 0); (50, 0)]);
        (-6, Own [(10, 5); (20, 2); (30, 1); (40, 1)])]%Z,
     Raise KeyError) /\
    depleted pricing' [(10, 0); (20, 1); (30, 5); (40, 5); (50, 5)]%Z.
Proof.
  destruct (@forecast_frame_any_outcome Z _ _
              (Heap.make Scenario.od Scenario.pricing
                 [(-7, Own [(10, 5); (20, 1); (30, 0); (40, 0); (50, 0)]);
                  (-6, Own [(10, 5); (20, 2); (30, 1); (40, 1)])]%Z)
              example_pricing_nodup) as (pricing' & _ & _ & _ & _ & Hraise).
  destruct Hraise as [Hrun Hkeep].
  { exists (-6)%Z, [(10, 5); (20, 2); (30, 1); (40, 1)]%Z, 50%Z.
    split; [right; now left|]. split; [|reflexivity].
    simpl. auto 10. }
  exists pricing'. split; [exact Hrun|].
  apply (Hkeep [(-7, Own [(10, 5); (20, 1); (30, 0); (40, 0); (50, 0)])]%Z
               [(-6, Own [(10, 5); (20, 2); (30, 1); (40, 1)])]%Z).
  - reflexivity.
  - apply coversb_covers. reflexivity.
Defined.

(** ** Forecast: sizes of the sales *)

Section ForecastSizes.
Context {R : Type} {numR : Num R} {moneyR : Money R}.
Local Open Scope Z_scope.

Lemma depleted_prices_nonneg (p q : dict Z Z) :
  depleted p q -> prices_nonneg q -> prices_nonneg p.
Proof.
  induction 1 as [|a b p0 q0 [Hk _] _ IH]; intros Hq; [constructor|].
  inversion Hq; subst. constructor; [lia|]. now apply IH.
Qed.

Lemma depleted_in (q' q : dict Z Z) (p c' : Z) :
  depleted q' q -> In (p, c') q' -> exists c, In (p, c) q /\ c' <= c.
Proof.
  induction 1 as [|[k a] [k' b] q0' q0 [Hk Hv] _ IH]; [intros []|].
  simpl in Hk, Hv. subst k'. intros [[= -> ->]|Hin].
  - exists b. split; [now left|exact Hv].
  - destruct (IH Hin) as (c & Hc & Hle). exists c. split; [now right|exact Hle].
Qed.

Lemma in_stock_inventory (p : dict Z Z) : in_stock p -> 0 <= inventory p.
Proof.
  unfold inventory. induction 1 as [|[k c] p0 Hc _ IH]; simpl in *; lia.
Qed.

Lemma scan_spec_money {O : NumOrder R} {MO : MoneyOrder R}
    (demand : row) (levels : dict Z Z) :
  prices_nonneg levels -> forall sold (money : R),
  num_le money (snd (scan_spec demand levels sold money)).
Proof.
  induction 1 as [|[p c] rest Hp _ IH]; intros sold money; simpl;
    [apply num_le_refl|].
  simpl in Hp.
  destruct (Z.leb_spec (Z.min (row_demand demand p c - sold) c) 0) as [Hskip|Hfill].
  - specialize (IH sold money).
    destruct (scan_spec demand rest sold money) as [[? ?] ?]. exact IH.
  - set (fill := Z.min (row_demand demand p c - sold) c) in *.
    specialize (IH (sold + fill) (num_add_int money (p * fill))).
    destruct (scan_spec demand rest _ _) as [[? ?] ?]. simpl in *.
    eapply num_le_trans; [|exact IH]. apply num_le_add_int. nia.
Qed.

Lemma scan_spec_sold_out (demand : row) (levels : dict Z Z) :
  sold_out levels -> forall sold (money : R),
  scan_spec demand levels sold money = (levels, sold, money).
Proof.
  induction 1 as [|[p c] rest Hc _ IH]; intros sold money; simpl; [reflexivity|].
  simpl in Hc.
  destruct (Z.leb_spec (Z.min (row_demand demand p c - sold) c) 0); [|lia].
  now rewrite IH.
Qed.

(** a row asks for at most [D] at every level of the pricing *)
Definition row_bounded (D : Z) (demand : row) (pricing : dict Z Z) : Prop :=
  forall p c, In (p, c) pricing -> row_demand demand p c <= D.

Lemma row_bounded_depleted (D : Z) (demand : row) (q' q : dict Z Z) :
  depleted q' q -> row_bounded D demand q -> row_bounded D demand q'.
Proof.
  intros Hdep Hq p c' Hin. destruct (@depleted_in q' q p c' Hdep Hin) as (c & Hc & Hle).
  pose proof (@row_demand_mono demand p c' c Hle). specialize (Hq p c Hc). lia.
Qed.

Lemma scan_spec_le_demand (demand : row) (D : Z) (levels : dict Z Z) :
  row_bounded D demand levels -> forall sold (money : R),
  sold <= D -> snd (fst (scan_spec demand levels sold money)) <= D.
Proof.
  induction levels as [|[p c] rest IH]; intros HD sold money Hs.
  - exact Hs.
  - destruct (scan_spec_sold_cons demand p c rest sold money) as (money' & ->).
    apply IH.
    + intros q cq Hq. apply HD. now right.
    + specialize (HD p c (or_introl eq_refl)). lia.
Qed.

Lemma days_spec_sold (days : dict Z row) :
  forall pricing head_count (money : R),
  Forall (fun sold => 0 <= sold)
         (sold_per_day head_count (snd (days_spec days pricing head_count money))).
Proof.
  induction days as [|[day demand] rest IH]; intros pricing head_count money.
  - constructor.
  - cbn [days_spec].
    pose proof (scan_spec_facts demand pricing 0 money) as Hscan.
    destruct (scan_spec demand pricing 0 money) as [[pricing1 sold] money1].
    destruct Hscan as (_ & Hsold & _).
    specialize (IH pricing1 (head_count + sold) money1).
    destruct (days_spec rest pricing1 (head_count + sold) money1) as [pricing2 out].
    cbn [snd sold_per_day] in *. constructor; [lia|exact IH].
Qed.

Lemma days_spec_revenue {O : NumOrder R} {MO : MoneyOrder R} (days : dict Z row) :
  forall pricing head_count (money : R),
  prices_nonneg pricing ->
  never_drops num_le money
    (map t_revenue (snd (days_spec days pricing head_count money))).
Proof.
  induction days as [|[day demand] rest IH]; intros pricing head_count money Hp.
  - exact I.
  - cbn [days_spec].
    pose proof (scan_spec_facts demand pricing 0 money) as Hscan.
    pose proof (scan_spec_money demand Hp 0 money) as Hmoney.
    destruct (scan_spec demand pricing 0 money) as [[pricing1 sold] money1].
    destruct Hscan as (Hdep & _).
    specialize (IH pricing1 (head_count + sold) money1
                   (depleted_prices_nonneg Hdep Hp)).
    destruct (days_spec rest pricing1 (head_count + sold) money1) as [pricing2 out].
    cbn [snd map never_drops t_revenue] in *. split; [exact Hmoney|exact IH].
Qed.

Lemma days_spec_sold_out (days : dict Z row) (pricing : dict Z Z) :
  sold_out pricing -> forall head_count (money : R),
  days_spec days pricing head_count money =
  (pricing, map (fun day => (day, head_count, money)) (dict_keys days)).
Proof.
  intros Hout. induction days as [|[day demand] rest IH]; intros head_count money.
  - reflexivity.
  - cbn [days_spec]. rewrite (scan_spec_sold_out demand Hout).
    rewrite Z.add_0_r, IH. reflexivity.
Qed.

Lemma days_spec_le_demand (D : Z) (days : dict Z row) :
  0 <= D ->
  forall pricing head_count (money : R),
  (forall day demand, In (day, demand) days -> row_bounded D demand pricing) ->
  Forall (fun sold => sold <= D)
         (sold_per_day head_count (snd (days_spec days pricing head_count money))).
Proof.
  intros HD. induction days as [|[day demand] rest IH];
    intros pricing head_count money Hdem.
  - constructor.
  - cbn [days_spec].
    pose proof (@scan_spec_le_demand demand D pricing
                  (Hdem day demand (or_introl eq_refl)) 0 money HD) as Hle.
    pose proof (scan_spec_facts demand pricing 0 money) as Hscan.
    destruct (scan_spec demand pricing 0 money) as [[pricing1 sold] money1].
    destruct Hscan as (Hdep & _). cbn [fst snd] in Hle.
    specialize (IH pricing1 (head_count + sold) money1).
    destruct (days_spec rest pricing1 (head_count + sold) money1) as [pricing2 out].
    cbn [snd sold_per_day] in *. constructor; [lia|apply IH].
    intros d0 dem0 Hin. eapply row_bounded_depleted; [exact Hdep|].
    apply (Hdem d0 dem0). now right.
Qed.

(** under distinct keys an entry of a dictionary is what its key gives *)
Lemma dict_get_entry (pricing : dict Z Z) (p c : Z) :
  NoDup (dict_keys pricing) -> In (p, c) pricing -> dict_get pricing p = Some c.
Proof.
  intros Hnd Hin. apply in_split in Hin. destruct Hin as (pre & rest & ->).
  apply dict_get_middle. unfold dict_keys in Hnd. rewrite map_app in Hnd.
  cbn [map fst] in Hnd. apply NoDup_remove_2 in Hnd.
  intros Hp. apply Hnd, in_or_app. now left.
Qed.
End ForecastSizes.

(** in [int], revenues that never drop are daily revenues not below zero *)
Lemma never_drops_revenue_per_day (out : list (triplet Z)) : forall before,
  never_drops Z.le before (map t_revenue out) ->
  Forall (fun made => 0 <= made)%Z (revenue_per_day before out).
Proof.
  induction out as [|[[day count] money] out IH]; intros before Hnd.
  - constructor.
  - cbn [map never_drops t_revenue snd revenue_per_day] in *.
    destruct Hnd as [Hle Hrest]. constructor; [lia|now apply IH].
Qed.

(** X14: when [forecast] succeeds, no day sells a negative number of
    seats, so the emitted counts never go down and start at or above the
    OD's passenger count; when no price level is negative the emitted
    revenues never go down either, wherever adding an amount that is not
    negative does not decrease the money; and when no level has a negative
    inventory the seats sold over all days are at most the inventory of
    the pricing. *)
Theorem forecast_cumulative {R : Type} {numR : Num R} {moneyR : Money R}
    (h : Heap.t R) :
  NoDup (dict_keys (Heap.pricing h)) ->
  covers (Heap.demand_matrix h) (Heap.pricing h) ->
  let before := Z.of_nat (length (OD.passengers (Heap.self h))) in
  let paid := sum_prices (OD.passengers (Heap.self h)) in
  exists h' out,
    forecast h = (h', Ok out) /\
    Forall (fun sold => 0 <= sold)%Z (sold_per_day before out) /\
    (forall (O : NumOrder R) (MO : MoneyOrder R),
       prices_nonneg (Heap.pricing h) ->
       never_drops num_le paid (map t_revenue out)) /\
    (in_stock (Heap.pricing h) ->
     (final_count before out - before <= inventory (Heap.pricing h))%Z).
Proof.
  intros Hnd Hcov before paid. eexists. eexists.
  split; [apply forecast_run; assumption|]. unfold forecast_spec.
  fold before paid.
  pose proof (days_spec_sold (Heap.demand_matrix h) (Heap.pricing h)
                before paid) as Hs.
  pose proof (fun O MO => @days_spec_revenue R numR moneyR O MO (Heap.demand_matrix h)
                (Heap.pricing h) before paid) as Hm.
  pose proof (days_spec_facts (Heap.demand_matrix h) (Heap.pricing h)
                before paid) as Hfacts.
  destruct (days_spec (Heap.demand_matrix h) (Heap.pricing h) before paid)
    as [pricing' out].
  destruct Hfacts as (_ & _ & Hinv & Hstock). cbn [snd] in *.
  split; [exact Hs|]. split; [exact Hm|].
  intros Hin. pose proof (in_stock_inventory (Hstock Hin)). lia.
Qed.

Lemma forecast_cumulative_witness :
  exists h' out,
    forecast Scenario.heap = (h', Ok out) /\
    Forall (fun sold => 0 <= sold)%Z (sold_per_day 4 out) /\
    Forall (fun made => 0 <= made)%Z (revenue_per_day 130 out) /\
    (final_count 4 out - 4 <= 17)%Z.
Proof.
  destruct (@forecast_cumulative Z _ _ Scenario.heap example_pricing_nodup)
    as (h' & out & Hrun & Hs & Hm & Hinv).
  - apply coversb_covers. reflexivity.
  - exists h', out. split; [exact Hrun|]. split; [exact Hs|]. split.
    + apply never_drops_revenue_per_day. apply (Hm NumOrder_Z MoneyOrder_Z).
      repeat constructor; simpl; discriminate.
    + apply Hinv. repeat constructor; simpl; discriminate.
Defined.

(** X15: with no inventory left at any price level, [forecast] sells
    nothing and changes nothing: every day's triplet repeats the OD's
    passenger count and the sum of their prices.  When the OD has
    passengers the count is that of the last triplet of the history, whose
    revenue is the sum of the prices in sale-day order; it is the sum
    [forecast] repeats where sums do not depend on the order of the
    terms. *)
Theorem forecast_sold_out {R : Type} {numR : Num R} {moneyR : Money R}
    (h : Heap.t R) :
  NoDup (dict_keys (Heap.pricing h)) ->
  covers (Heap.demand_matrix h) (Heap.pricing h) ->
  sold_out (Heap.pricing h) ->
  let ps := OD.passengers (Heap.self h) in
  let before := Z.of_nat (length ps) in
  let paid := sum_prices ps in
  forecast h =
    (h, Ok (map (fun day => (day, before, paid))
                (dict_keys (Heap.demand_matrix h)))) /\
  (ps <> [] ->
   exists pre d,
     history (Heap.self h) =
     pre ++ [(d, before, sum_prices (sorted Passenger.sale_day_x ps))]) /\
  (forall E : NumExact R,
     ps <> [] ->
     exists pre d, history (Heap.self h) = pre ++ [(d, before, paid)]).
Proof.
  intros Hnd Hcov Hout ps before paid.
  assert (Hlast : ps <> [] ->
    exists pre d,
      history (Heap.self h) =
      pre ++ [(d, before, sum_prices (sorted Passenger.sale_day_x ps))]).
  { intros Hne. rewrite history_refines. unfold history_spec. fold ps.
    pose proof (sorted_perm Passenger.sale_day_x ps) as Hperm.
    destruct (@cumulative_last R numR (sorted Passenger.sale_day_x ps))
      as (pre & d & E).
    { intros E. apply Hne, Permutation_nil. rewrite <- E.
      now apply Permutation_sym. }
    exists pre, d. rewrite E. subst before.
    now rewrite (Permutation_length Hperm). }
  split; [|split; [exact Hlast|]].
  - rewrite (@forecast_run R numR moneyR h Hnd Hcov). unfold forecast_spec.
    rewrite (days_spec_sold_out _ Hout). cbn [fst snd].
    now rewrite heap_eta.
  - intros E Hne. destruct (Hlast Hne) as (pre & d & Hh).
    exists pre, d. rewrite Hh. do 3 f_equal.
    apply sum_from_perm, Permutation_sym, sorted_perm.
Qed.

Lemma forecast_sold_out_witness :
  forecast (Heap.make Scenario.od [(10, 0); (20, 0)]%Z
                      [(-1, Own [(10, 5); (20, 5)]); (0, Own [(10, 5); (20, 5)])]%Z) =
  (Heap.make Scenario.od [(10, 0); (20, 0)]%Z
             [(-1, Own [(10, 5); (20, 5)]); (0, Own [(10, 5); (20, 5)])]%Z,
   Ok [(-1, 4, 130); (0, 4, 130)]%Z).
Proof.
  destruct (@forecast_sold_out Z _ _
              (Heap.make Scenario.od [(10, 0); (20, 0)]%Z
                 [(-1, Own [(10, 5); (20, 5)]); (0, Own [(10, 5); (20, 5)])]%Z))
    as [Hrun _].
  - repeat constructor; simpl; intuition discriminate.
  - apply coversb_covers. reflexivity.
  - repeat constructor; simpl; discriminate.
  - exact Hrun.
Defined.

(** X16: when [forecast] succeeds and no row of the demand matrix holds,
    when [forecast] is called, a demand above [D >= 0], no day sells more
    than [D] seats, whatever the inventory. *)
Theorem forecast_sells_at_most_demand {R : Type} {numR : Num R}
    {moneyR : Money R} (h : Heap.t R) (D : Z) :
  NoDup (dict_keys (Heap.pricing h)) ->
  covers (Heap.demand_matrix h) (Heap.pricing h) ->
  (0 <= D)%Z ->
  (forall day demand p d,
     In (day, demand) (Heap.demand_matrix h) ->
     row_get (Heap.pricing h) demand p = Some d -> (d <= D)%Z) ->
  exists h' out,
    forecast h = (h', Ok out) /\
    Forall (fun sold => sold <= D)%Z
           (sold_per_day (Z.of_nat (length (OD.passengers (Heap.self h)))) out).
Proof.
  intros Hnd Hcov HD Hdem. eexists. eexists.
  split; [apply forecast_run; assumption|]. unfold forecast_spec.
  apply days_spec_le_demand; [exact HD|].
  intros day demand Hin p c Hpc.
  destruct demand as [d|]; cbn [row_demand].
  - unfold demand_at. destruct (dict_get d p) as [x|] eqn:E; [|exact HD].
    exact (Hdem day (Own d) p x Hin E).
  - apply (Hdem day ThePricing p c Hin). cbn [row_get].
    now apply dict_get_entry.
Qed.

Lemma forecast_sells_at_most_demand_witness :
  (exists h' out,
     forecast Scenario.heap = (h', Ok out) /\
     Forall (fun sold => sold <= 5)%Z (sold_per_day 4 out)) /\
  (exists h' out,
     forecast Shared.heap = (h', Ok out) /\
     Forall (fun sold => sold <= 5)%Z (sold_per_day 0 out)).
Proof.
  split.
  - apply (@forecast_sells_at_most_demand Z _ _ Scenario.heap 5).
    + exact example_pricing_nodup.
    + apply coversb_covers. reflexivity.
    + lia.
    + intros day demand p d Hin Hget.
      vm_compute in Hin.
      repeat (destruct Hin as [Hin|Hin];
              [injection Hin as <- <-; apply dict_get_in in Hget;
               vm_compute in Hget;
               repeat (destruct Hget as [Hget|Hget];
                       [injection Hget as <- <-; lia|]);
               destruct Hget|]).
      destruct Hin.
  - apply (@forecast_sells_at_most_demand Z _ _ Shared.heap 5).
    + exact shared_pricing_nodup.
    + apply coversb_covers. reflexivity.
    + lia.
    + intros day demand p d Hin Hget.
      vm_compute in Hin.
      repeat (destruct Hin as [Hin|Hin];
              [injection Hin as <- <-; apply dict_get_in in Hget;
               vm_compute in Hget;
               repeat (destruct Hget as [Hget|Hget];
                       [injection Hget as <- <-; lia|]);
               destruct Hget|]).
      destruct Hin.
Defined.
